(** * ApacheDvsni: the DVSNI challenge solver of the Apache plugin

    A shallow embedding of [letsencrypt_apache/dvsni.py].  The class
    [ApacheDvsni] holds a list of annotated challenges ([achalls]) and
    drives the Apache configurator: it saves the configuration, switches
    the server to HTTPS, writes one certificate per challenge, renders a
    configuration fragment with one virtual host per challenge, wires the
    fragment into the main configuration and marks the addresses
    SNI-ready.

    Python sets are finite sets ([gset]); the state of the collaborators
    (configurator, parser, reverter, file system) is threaded explicitly
    through a small state-and-exception monad, in which an exception
    keeps the mutations made before it was raised. *)

From Stdlib Require Import Ascii String.
From stdpp Require Import base option list gmap sets strings.

Local Open Scope string_scope.

(** ** Characters and strings *)

Definition LF : ascii := Ascii.ascii_of_nat 10.
Definition CR : ascii := Ascii.ascii_of_nat 13.
Definition nl : string := String LF "".
Definition crlf : string := String CR nl.

(** [s.replace("\n", sep)]: the pattern is a single character, so every
    line feed of [s] is replaced, left to right. *)
Fixpoint replace_nl (sep s : string) : string :=
  match s with
  | "" => ""
  | String c r =>
      (if Ascii.eqb c LF then sep else String c "") ++ replace_nl sep r
  end.

(** [sep.join(xs)]. *)
Fixpoint join (sep : string) (xs : list string) : string :=
  match xs with
  | [] => ""
  | x :: r => match r with [] => x | _ :: _ => x ++ sep ++ join sep r end
  end.

Fixpoint last_char (s : string) : option ascii :=
  match s with
  | "" => None
  | String c r => match r with "" => Some c | String _ _ => last_char r end
  end.

Definition startswith_slash (s : string) : bool :=
  match s with String c _ => Ascii.eqb c "/" | "" => false end.

Definition endswith_slash (s : string) : bool :=
  match last_char s with Some c => Ascii.eqb c "/" | None => false end.

(** [os.path.join(a, b)] (posixpath): an absolute [b] wins; otherwise the
    two are glued with exactly one separator between them. *)
Definition os_path_join (a b : string) : string :=
  if startswith_slash b then b
  else if String.eqb a "" || endswith_slash a then a ++ b
  else a ++ "/" ++ b.

(** ** Data model *)

(** Modelled from the spec: the class [Addr] ([letsencrypt_apache.obj]) is
    not among the sources.  An address is a (host, port) pair; two
    addresses are equal iff host and port match exactly; [get_addr] is the
    host and [get_sni_addr port] keeps the host and replaces the port. *)
Record Addr := mkAddr { get_addr : string; get_port : string }.

Definition get_sni_addr (a : Addr) (port : string) : Addr :=
  mkAddr (get_addr a) port.

#[global] Instance Addr_eq_dec : EqDecision Addr.
Proof. solve_decision. Defined.

#[global] Instance Addr_countable : Countable Addr.
Proof.
  refine (inj_countable' (fun a => (get_addr a, get_port a))
                         (fun p => mkAddr p.1 p.2) _).
  by intros [].
Defined.

(** Modelled from the spec: a virtual server as the registry returns it;
    only its set of listening addresses is read here. *)
Record VirtualHost := mkVirtualHost { addrs : gset Addr }.

(** An annotated DVSNI challenge: target domain, token, account key. *)
Record AChall := mkAChall {
  domain : string;
  token : string;
  account_key : string
}.

(** The response descriptor returned to the caller for one challenge. *)
Record Response := mkResponse {
  z_domain : string;
  validation : string
}.

(** The values read from [configurator.config], [configurator.conf],
    [configurator.mod_ssl_conf] and [configurator.parser.loc]. *)
Record Config := mkConfig {
  server_root : string;
  dvsni_port : string;
  work_dir : string;
  mod_ssl_conf : string;
  loc_default : string
}.

(** ** Collaborator state *)

(** One directive of the parsed configuration: where it lives, its name
    and its argument. *)
Record Directive := mkDirective {
  dir_path : string;
  dir_name : string;
  dir_arg : string
}.

(** The collaborator calls, as the solver issues them. *)
Inductive Event :=
| EvSave (title : option string) (temporary : bool)
| EvPrepareServerHttps (port : string) (temp : bool)
| EvChooseVhost (name : string)
| EvFindDir (directive arg : string)
| EvAddDir (aug_path directive arg : string)
| EvRegisterFileCreation (temporary : bool) (path : string)
| EvOpenW (path : string)
| EvWrite (path text : string)
| EvMakeAddrsSniReady (s : gset Addr).

#[global] Instance Event_eq_dec : EqDecision Event.
Proof. solve_decision. Defined.

Record World := mkWorld {
  vhosts : gmap string VirtualHost;   (* configurator: domain to vhost *)
  directives : list Directive;        (* parser: the directive tree *)
  created : list (bool * string);     (* reverter: files to delete *)
  files : gmap string string;         (* file system: path to content *)
  trace : list Event                  (* calls made so far, oldest first *)
}.

(** The failure that the control flow of the solver itself depends on: a
    lookup that finds no virtual server.  Failures of the other
    collaborators and of file input and output arise in code that is not
    among the sources; the properties below are about runs in which these
    succeed. *)
Inductive Error :=
| NoTargetServer (name : string).

Inductive Result (A : Type) :=
| Ok (a : A)
| Raised (e : Error).
Arguments Ok {A} a.
Arguments Raised {A} e.

(** ** The monad: state that survives exceptions *)

Definition M (A : Type) : Type := World -> Result A * World.

Definition ret {A} (a : A) : M A := fun w => (Ok a, w).

Definition raise {A} (e : Error) : M A := fun w => (Raised e, w).

Definition bind {A B} (c : M A) (k : A -> M B) : M B :=
  fun w => match c w with
           | (Ok a, w') => k a w'
           | (Raised e, w') => (Raised e, w')
           end.

Notation "'do' x <- c 'in' k" := (bind c (fun x => k))
  (at level 10, x name, c at level 99, k at level 200,
   format "'[v' 'do'  x  <-  c  'in' '/' k ']'").
Notation "'run' c 'in' k" := (bind c (fun _ => k))
  (at level 10, c at level 99, k at level 200,
   format "'[v' 'run'  c  'in' '/' k ']'").

Definition emit (e : Event) : M unit :=
  fun w => (Ok tt, mkWorld (vhosts w) (directives w) (created w) (files w)
                           (trace w ++ [e])).

(** [for x in xs: acc = body(acc, x)]. *)
Fixpoint for_each {A S} (body : S -> A -> M S) (xs : list A) (acc : S) : M S :=
  match xs with
  | [] => ret acc
  | x :: r => do acc' <- body acc x in for_each body r acc'
  end.

(** ** Collaborators

    The configurator, its parser and its reverter are not among the
    sources.  Each of their operations is modelled from the interface the
    spec gives it, and records its call in the trace. *)

(** Modelled from the spec: [configurator.save(title, temporary)], the
    operation [saveCurrentState] / [commit(label, isReversible)] of the
    config mutation subsystem.  Only the call is recorded. *)
Definition save (title : option string) (temporary : bool) : M unit :=
  emit (EvSave title temporary).

(** Modelled from the spec: [configurator.prepare_server_https(port, temp)],
    the operation [enterHttpsMode(port, forceRestart)] of the server mode
    switch.  Only the call is recorded. *)
Definition prepare_server_https (port : string) (temp : bool) : M unit :=
  emit (EvPrepareServerHttps port temp).

(** Modelled from the spec: [configurator.make_addrs_sni_ready(addrs)], the
    operation [markAddressesSniReady(set)] of the server mode switch.  Only
    the call, with the set it receives, is recorded. *)
Definition make_addrs_sni_ready (s : gset Addr) : M unit :=
  emit (EvMakeAddrsSniReady s).

(** Modelled from the spec: [configurator.choose_vhost(domain)], the
    operation [findServerForDomain(domain)] of the virtual-server registry,
    which fails if no match exists. *)
Definition choose_vhost (name : string) : M VirtualHost :=
  run emit (EvChooseVhost name) in
  fun w => match vhosts w !! name with
           | Some vh => (Ok vh, w)
           | None => (Raised (NoTargetServer name), w)
           end.

(** Modelled from the spec: [parser.case_i(s)], a pattern that matches the
    directive name [s] in any letter case. *)
Inductive Regexp :=
| case_i (s : string).

Definition lower_ascii (c : ascii) : ascii :=
  let n := Ascii.nat_of_ascii c in
  if (65 <=? n)%nat && (n <=? 90)%nat then Ascii.ascii_of_nat (n + 32) else c.

Fixpoint lower (s : string) : string :=
  match s with
  | "" => ""
  | String c r => String (lower_ascii c) (lower r)
  end.

Definition regexp_match (r : Regexp) (name : string) : bool :=
  match r with case_i s => String.eqb (lower name) (lower s) end.

Definition regexp_source (r : Regexp) : string :=
  match r with case_i s => s end.

Definition dir_matches (r : Regexp) (arg : string) (d : Directive) : bool :=
  regexp_match r (dir_name d) && String.eqb (dir_arg d) arg.

(** Modelled from the spec: [parser.find_dir(directive, arg)], the operation
    [findDirective(name, value) -> matches]: the directives whose name
    matches the pattern and whose argument is [arg]. *)
Definition find_dir (r : Regexp) (arg : string) : M (list Directive) :=
  run emit (EvFindDir (regexp_source r) arg) in
  fun w => (Ok (filter (fun d => dir_matches r arg d = true) (directives w)), w).

(** Modelled from the spec: [parser.add_dir(aug_path, directive, arg)], the
    operation [addDirective(path, name, value)]: one more directive, after
    those already there. *)
Definition add_dir (aug_path directive arg : string) : M unit :=
  run emit (EvAddDir aug_path directive arg) in
  fun w => (Ok tt, mkWorld (vhosts w)
                           (directives w ++ [mkDirective aug_path directive arg])
                           (created w) (files w) (trace w)).

(** Modelled from the spec: [reverter.register_file_creation(temporary,
    path)], the operation [registerFileCreation(isRollbackEligible, path)]:
    the file is noted as newly created. *)
Definition register_file_creation (temporary : bool) (path : string) : M unit :=
  run emit (EvRegisterFileCreation temporary path) in
  fun w => (Ok tt, mkWorld (vhosts w) (directives w)
                           (created w ++ [(temporary, path)])
                           (files w) (trace w)).

(** [open(path, "w")] creates the file or truncates it to nothing;
    [write] appends to what the handle has written so far.  The file
    system holds the text as it was handed to [write]. *)
Definition open_w (path : string) : M unit :=
  run emit (EvOpenW path) in
  fun w => (Ok tt, mkWorld (vhosts w) (directives w) (created w)
                           (<[path := ""]> (files w)) (trace w)).

Definition write (path text : string) : M unit :=
  run emit (EvWrite path text) in
  fun w => (Ok tt, mkWorld (vhosts w) (directives w) (created w)
                           (<[path := default "" (files w !! path) ++ text]> (files w))
                           (trace w)).

(** ** The virtual host template *)

Inductive Field :=
| vhost | server_name | ssl_options_conf_path | cert_path | key_path
| document_root.

Inductive Piece :=
| Lit (s : string)
| Fld (f : Field).

Definition NL : Piece := Lit nl.

Definition VHOST_TEMPLATE : list Piece :=
  [ Lit "<VirtualHost "; Fld vhost; Lit ">"; NL;
    Lit "    ServerName "; Fld server_name; NL;
    Lit "    UseCanonicalName on"; NL;
    Lit "    SSLStrictSNIVHostCheck on"; NL;
    NL;
    Lit "    LimitRequestBody 1048576"; NL;
    NL;
    Lit "    Include "; Fld ssl_options_conf_path; NL;
    Lit "    SSLCertificateFile "; Fld cert_path; NL;
    Lit "    SSLCertificateKeyFile "; Fld key_path; NL;
    NL;
    Lit "    DocumentRoot "; Fld document_root; NL;
    Lit "</VirtualHost>"; NL;
    NL ].

(** [template.format] with keyword arguments [kw]: every field is replaced by its value, which
    is not scanned again. *)
Fixpoint format (t : list Piece) (kw : Field -> string) : string :=
  match t with
  | [] => ""
  | Lit s :: r => s ++ format r kw
  | Fld f :: r => kw f ++ format r kw
  end.

(** ** The solver *)

Section ApacheDvsni.

(** [os.linesep] of the host platform. *)
Variable linesep : string.

Variable cfg : Config.

(** The parts of the challenge library and of the plugin base class that
    the solver calls but that are not among the sources: the response of
    a challenge, computed from its token and an account key; where its
    certificate and key are kept; the certificate and key themselves;
    how an address is printed; the path of a file in the parser's
    tree. *)
Variable gen_response : string -> string -> Response.
Variable get_cert_path get_key_path : AChall -> string.
Variable gen_cert : AChall -> string * string.
Variable str_addr : Addr -> string.
Variable get_aug_path : string -> string.

(** [__init__]: the fixed path of the fragment. *)
Definition challenge_conf : string :=
  os_path_join (server_root cfg) "le_dvsni_cert_challenge.conf".

(** Modelled from the spec: [_setup_challenge_cert] belongs to the base
    class [common.Dvsni], which is not among the sources.  It registers
    the key and certificate files of the challenge with the reverter,
    writes them, and returns the response derived from the token of the
    challenge and its account key. *)
Definition _setup_challenge_cert (achall : AChall) : M Response :=
  let cert := get_cert_path achall in
  let key := get_key_path achall in
  run register_file_creation true key in
  run register_file_creation true cert in
  run open_w cert in
  run write cert (gen_cert achall).1 in
  run open_w key in
  run write key (gen_cert achall).2 in
  ret (gen_response (token achall) (account_key achall)).

Definition default_addr : Addr := mkAddr "*" (dvsni_port cfg).

(** The body of the loop of [get_dvsni_addrs]: the address added for one
    listening address of the virtual host. *)
Definition dvsni_addr_of (addr : Addr) : Addr :=
  if String.eqb "_default_" (get_addr addr) then default_addr
  else get_sni_addr addr (dvsni_port cfg).

Definition get_dvsni_addrs (achall : AChall) : M (gset Addr) :=
  do vh <- choose_vhost (domain achall) in
  ret (foldl (fun dvsni_addrs addr => dvsni_addrs ∪ {[ dvsni_addr_of addr ]})
             ∅ (elements (addrs vh))).

Definition _conf_include_check (main_config : string) : M unit :=
  do found <- find_dir (case_i "Include") challenge_conf in
  if (length found =? 0)%nat
  then add_dir (get_aug_path main_config) "Include" challenge_conf
  else ret tt.

Definition _get_config_text (achall : AChall) (ip_addrs : gset Addr) : string :=
  let ips := join " " (map str_addr (elements ip_addrs)) in
  let droot := os_path_join (work_dir cfg) "dvsni_page/" in
  replace_nl linesep
    (format VHOST_TEMPLATE
       (fun f => match f with
                 | vhost => ips
                 | server_name =>
                     z_domain (gen_response (token achall) (account_key achall))
                 | ssl_options_conf_path => mod_ssl_conf cfg
                 | cert_path => get_cert_path achall
                 | key_path => get_key_path achall
                 | document_root => droot
                 end)).

(** The body of the loop of [_mod_config], on the pair of its two
    accumulators. *)
Definition mod_config_step (st : gset Addr * string) (achall : AChall)
  : M (gset Addr * string) :=
  do achall_addrs <- get_dvsni_addrs achall in
  ret (st.1 ∪ achall_addrs, st.2 ++ _get_config_text achall achall_addrs).

Definition _mod_config (achalls : list AChall) : M (gset Addr) :=
  do st <- for_each mod_config_step achalls (∅, "<IfModule mod_ssl.c>" ++ nl) in
  let dvsni_addrs := st.1 in
  let config_text := st.2 ++ "</IfModule>" ++ nl in
  run _conf_include_check (loc_default cfg) in
  run register_file_creation true challenge_conf in
  run open_w challenge_conf in
  run write challenge_conf config_text in
  ret dvsni_addrs.

(** [responses.append(...)] for every challenge, in order. *)
Definition setup_step (responses : list Response) (achall : AChall)
  : M (list Response) :=
  do r <- _setup_challenge_cert achall in
  ret (responses ++ [r])%list.

Definition perform (achalls : list AChall) : M (list Response) :=
  match achalls with
  | [] => ret []
  | _ :: _ =>
      run save None false in
      run prepare_server_https (dvsni_port cfg) true in
      do responses <- for_each setup_step achalls [] in
      do dvsni_addrs <- _mod_config achalls in
      run make_addrs_sni_ready dvsni_addrs in
      run save (Some "SNI Challenge") true in
      ret responses
  end.

End ApacheDvsni.

(** ** Derived notions used in the statements *)

(** The events of [_setup_challenge_cert] for one challenge. *)
Definition setup_events (get_cert_path get_key_path : AChall -> string)
    (gen_cert : AChall -> string * string) (achall : AChall) : list Event :=
  [ EvRegisterFileCreation true (get_key_path achall);
    EvRegisterFileCreation true (get_cert_path achall);
    EvOpenW (get_cert_path achall);
    EvWrite (get_cert_path achall) (gen_cert achall).1;
    EvOpenW (get_key_path achall);
    EvWrite (get_key_path achall) (gen_cert achall).2 ].

(** What one call of [_setup_challenge_cert] leaves in the file system and
    with the reverter. *)
Definition cert_files (get_cert_path get_key_path : AChall -> string)
    (gen_cert : AChall -> string * string) (f : gmap string string) (a : AChall)
    : gmap string string :=
  <[get_key_path a := (gen_cert a).2]> (<[get_cert_path a := (gen_cert a).1]> f).

Definition cert_created (get_cert_path get_key_path : AChall -> string)
    (a : AChall) : list (bool * string) :=
  [(true, get_key_path a); (true, get_cert_path a)].

(** A run that stops on a missing virtual server without having touched
    anything: it has looked up virtual servers and nothing else. *)
Definition aborts_before_mutation {A} (c : M A) (w : World) : Prop :=
  ∃ d w', c w = (Raised (NoTargetServer d), w') ∧
    directives w' = directives w ∧ created w' = created w ∧
    files w' = files w ∧
    ∃ names, trace w' = (trace w ++ map EvChooseVhost names)%list.

(** The directives that [_conf_include_check] looks for among those of
    the parser: the includes of the fragment, in any letter case. *)
Definition includes (cfg : Config) (ds : list Directive) : list Directive :=
  filter (fun d => dir_matches (case_i "Include") (challenge_conf cfg) d = true) ds.

(** The include directive of the fragment, as [_conf_include_check] adds
    it to the main configuration file. *)
Definition include_directive (cfg : Config) (get_aug_path : string -> string)
    (main_config : string) : Directive :=
  mkDirective (get_aug_path main_config) "Include" (challenge_conf cfg).

(** The parser calls of [_conf_include_check] on the directives [ds]. *)
Definition include_events (cfg : Config) (get_aug_path : string -> string)
    (main_config : string) (ds : list Directive) : list Event :=
  EvFindDir "Include" (challenge_conf cfg)
  :: match includes cfg ds with
     | [] => [EvAddDir (get_aug_path main_config) "Include" (challenge_conf cfg)]
     | _ :: _ => []
     end.

(** The challenge addresses of one virtual host, as a set. *)
Definition vhost_dvsni_addrs (cfg : Config) (vh : VirtualHost) : gset Addr :=
  set_map (dvsni_addr_of cfg) (addrs vh).

(** The host under which a listening address takes part in the
    challenge: the wildcard marker stands for "*", any other host for
    itself. *)
Definition challenge_host (a : Addr) : string :=
  if String.eqb "_default_" (get_addr a) then "*" else get_addr a.

(** The challenge addresses of a challenge for a registry of virtual
    hosts: those of the virtual host of its domain, nothing when there is
    none. *)
Definition achall_addrs (cfg : Config) (vs : gmap string VirtualHost)
    (achall : AChall) : gset Addr :=
  match vs !! domain achall with
  | Some vh => vhost_dvsni_addrs cfg vh
  | None => ∅
  end.

(** Every domain of the batch has a virtual host. *)
Definition all_resolved (vs : gmap string VirtualHost) (achalls : list AChall)
    : Prop :=
  Forall (fun a => is_Some (vs !! domain a)) achalls.

#[global] Instance all_resolved_dec vs achalls : Decision (all_resolved vs achalls).
Proof. unfold all_resolved. apply _. Defined.

(** The world after further collaborator calls that change nothing but
    the trace. *)
Definition log (es : list Event) (w : World) : World :=
  mkWorld (vhosts w) (directives w) (created w) (files w) (trace w ++ es).

(** A text has native line endings for the terminator [sep] when every
    carriage return and every line feed in it belongs to an occurrence of
    [sep]; [skip] counts the characters of the current terminator that are
    still to be passed. *)
Definition is_eol (c : ascii) : bool := Ascii.eqb c LF || Ascii.eqb c CR.

Fixpoint scan_endings (sep : string) (skip : nat) (s : string) : bool :=
  match s with
  | "" => true
  | String c r =>
      match skip with
      | S k => scan_endings sep k r
      | O =>
          if String.prefix sep s && negb (String.eqb sep "")
          then scan_endings sep (String.length sep - 1) r
          else if is_eol c then false else scan_endings sep 0 r
      end
  end.

Definition native_line_endings (sep s : string) : bool := scan_endings sep 0 s.

(** The number of positions of [s] at which [pat] starts. *)
Fixpoint count_sub (pat s : string) : nat :=
  match s with
  | "" => 0
  | String c r => (if String.prefix pat s then 1 else 0) + count_sub pat r
  end.

Fixpoint has_char (c : ascii) (s : string) : bool :=
  match s with
  | "" => false
  | String d r => Ascii.eqb c d || has_char c r
  end.

(** Concatenation of a list of strings. *)
Definition sconcat (xs : list string) : string := foldr String.append "" xs.

Section Fragment.

Variable linesep : string.
Variable cfg : Config.
Variable gen_response : string -> string -> Response.
Variable get_cert_path get_key_path : AChall -> string.
Variable str_addr : Addr -> string.

(** The virtual host block of one challenge for a registry of virtual
    hosts. *)
Definition block_of (vs : gmap string VirtualHost) (a : AChall) : string :=
  _get_config_text linesep cfg gen_response get_cert_path get_key_path
                   str_addr a (achall_addrs cfg vs a).

(** The fragment of a batch: the blocks of its challenges, in order,
    between the two lines of the module guard. *)
Definition fragment_text (vs : gmap string VirtualHost) (achalls : list AChall)
    : string :=
  "<IfModule mod_ssl.c>" ++ nl ++ sconcat (map (block_of vs) achalls)
  ++ "</IfModule>" ++ nl.

End Fragment.

(** No character of [s] opens a tag. *)
Definition tag_free (s : string) : bool := negb (has_char "<" s).

(** The opening tag of a virtual host. *)
Definition open_tag : string := "<VirtualHost ".

(** The text that a piece of a template stands for. *)
Definition piece_text (kw : Field -> string) (p : Piece) : string :=
  match p with Lit s => s | Fld f => kw f end.

Section TagFree.

Variable linesep : string.
Variable cfg : Config.
Variable gen_response : string -> string -> Response.
Variable get_cert_path get_key_path : AChall -> string.
Variable str_addr : Addr -> string.

(** None of the values that go into the block of a challenge opens a
    tag. *)
Definition block_tag_free (a : AChall) (ips : gset Addr) : bool :=
  tag_free linesep
  && forallb (fun x => tag_free (str_addr x)) (elements ips)
  && tag_free (z_domain (gen_response (token a) (account_key a)))
  && tag_free (mod_ssl_conf cfg)
  && tag_free (get_cert_path a)
  && tag_free (get_key_path a)
  && tag_free (work_dir cfg).

Definition batch_tag_free (vs : gmap string VirtualHost) (achalls : list AChall)
    : bool :=
  forallb (fun a => block_tag_free a (achall_addrs cfg vs a)) achalls.

End TagFree.

(** The terminator [sep] begins with a carriage return or a line feed, as
    the terminators of the usual platforms do. *)
Definition eol_head (sep : string) : bool :=
  match sep with
  | "" => false
  | String c _ => is_eol c
  end.

Section Lacks.

Variable cfg : Config.
Variable gen_response : string -> string -> Response.
Variable get_cert_path get_key_path : AChall -> string.
Variable str_addr : Addr -> string.

(** The character [c] occurs in none of the values that go into the block
  of a challenge. *)
Definition block_lacks (c : ascii) (a : AChall) (ips : gset Addr) : bool :=
forallb (fun x => negb (has_char c (str_addr x))) (elements ips)
&& negb (has_char c (z_domain (gen_response (token a) (account_key a))))
&& negb (has_char c (mod_ssl_conf cfg))
&& negb (has_char c (get_cert_path a))
&& negb (has_char c (get_key_path a))
&& negb (has_char c (work_dir cfg)).

Definition batch_lacks (c : ascii) (vs : gmap string VirtualHost)
  (achalls : list AChall) : bool :=
forallb (fun a => block_lacks c a (achall_addrs cfg vs a)) achalls.

End Lacks.

(** ** A configuration to run the solver on *)

Module Example.

Definition cfg : Config :=
  mkConfig "/etc/apache2" "5001" "/var/lib/letsencrypt"
           "/etc/letsencrypt/options-ssl.conf" "/etc/apache2/apache2.conf".

Definition gen_response (t k : string) : Response :=
  mkResponse (t ++ "." ++ k ++ ".acme.invalid") "s".

Definition get_cert_path (a : AChall) : string :=
  os_path_join (work_dir cfg) (token a ++ ".crt").

Definition get_key_path (a : AChall) : string :=
  os_path_join (work_dir cfg) (token a ++ ".pem").

Definition gen_cert (a : AChall) : string * string :=
  ("CERT " ++ token a, "KEY " ++ token a).

Definition str_addr (a : Addr) : string := get_addr a ++ ":" ++ get_port a.

Definition get_aug_path (p : string) : string := "/files" ++ p.

Definition vh_a : VirtualHost :=
  mkVirtualHost {[ mkAddr "10.0.0.1" "80"; mkAddr "_default_" "80" ]}.

Definition vh_b : VirtualHost :=
  mkVirtualHost {[ mkAddr "10.0.0.5" "443" ]}.

Definition vh_none : VirtualHost := mkVirtualHost ∅.

Definition vh_d : VirtualHost :=
  mkVirtualHost {[ mkAddr "10.0.0.7" "80"; mkAddr "10.0.0.7" "8080";
                   mkAddr "_default_" "80"; mkAddr "_default_" "443" ]}.

Definition world : World :=
  mkWorld {[ "a.example" := vh_a; "b.example" := vh_b; "c.example" := vh_b;
             "empty.example" := vh_none ]}
          [] [] ∅ [].

Definition chall_a : AChall := mkAChall "a.example" "T1" "K".
Definition chall_b : AChall := mkAChall "b.example" "T2" "K".
Definition chall_c : AChall := mkAChall "c.example" "T3" "K".
Definition chall_empty : AChall := mkAChall "empty.example" "T4" "K".
Definition chall_missing : AChall := mkAChall "missing.example" "T5" "K".
Definition chall_d : AChall := mkAChall "d.example" "T6" "K".

Definition world_d : World :=
  mkWorld {[ "d.example" := vh_d ]} [] [] ∅ [].

Definition solve (linesep : string) : list AChall -> M (list Response) :=
  perform linesep cfg gen_response get_cert_path get_key_path gen_cert
          str_addr get_aug_path.

End Example.

(** * Properties *)

(** ** Addresses *)

Section Addresses.

Variable cfg : Config.

Lemma foldl_dvsni_addrs (l : list Addr) (acc : gset Addr) :
  foldl (fun s a => s ∪ {[ dvsni_addr_of cfg a ]}) acc l
  = acc ∪ list_to_set (map (dvsni_addr_of cfg) l).
Proof.
  revert acc. induction l as [|a l IH]; intros acc; simpl.
  - set_solver.
  - rewrite IH. set_solver.
Qed.

Lemma get_dvsni_addrs_run (achall : AChall) (w : World) :
  get_dvsni_addrs cfg achall w
  = (match vhosts w !! domain achall with
     | Some vh => Ok (vhost_dvsni_addrs cfg vh)
     | None => Raised (NoTargetServer (domain achall))
     end,
     log [EvChooseVhost (domain achall)] w).
Proof.
  unfold get_dvsni_addrs, choose_vhost, bind, emit, ret, log. simpl.
  destruct (vhosts w !! domain achall) as [vh|]; [|done].
  f_equal. f_equal. rewrite foldl_dvsni_addrs.
  unfold vhost_dvsni_addrs, set_map. set_solver.
Qed.

Lemma elem_of_vhost_dvsni_addrs (vh : VirtualHost) (x : Addr) :
  x ∈ vhost_dvsni_addrs cfg vh ↔ ∃ a, a ∈ addrs vh ∧ x = dvsni_addr_of cfg a.
Proof.
  unfold vhost_dvsni_addrs. rewrite elem_of_map. naive_solver.
Qed.

Lemma dvsni_addr_of_port (a : Addr) :
  get_port (dvsni_addr_of cfg a) = dvsni_port cfg.
Proof. unfold dvsni_addr_of. by destruct (String.eqb _ _). Qed.

Lemma dvsni_addr_of_same_host (a b : Addr) :
  get_addr a = get_addr b → dvsni_addr_of cfg a = dvsni_addr_of cfg b.
Proof.
  intros H. unfold dvsni_addr_of, get_sni_addr. by rewrite H.
Qed.

End Addresses.

(** ** Strings *)

Lemma sapp_cons (x : ascii) (a b : string) : String x a ++ b = String x (a ++ b).
Proof. done. Qed.

Lemma sapp_nil_l (a : string) : "" ++ a = a.
Proof. done. Qed.

Lemma sapp_assoc (a b c : string) : (a ++ b) ++ c = a ++ (b ++ c).
Proof. induction a as [|x a IH]; [done|]. by rewrite !sapp_cons, IH. Qed.

Lemma sapp_nil_r (a : string) : a ++ "" = a.
Proof. induction a as [|x a IH]; [done|]. by rewrite sapp_cons, IH. Qed.

Lemma sconcat_app (xs ys : list string) :
  sconcat (xs ++ ys)%list = sconcat xs ++ sconcat ys.
Proof.
  induction xs as [|x xs IH]; [done|].
  change (x ++ sconcat (xs ++ ys)%list = (x ++ sconcat xs) ++ sconcat ys).
  by rewrite IH, sapp_assoc.
Qed.

(** ** Lists *)

Lemma elem_of_concat_map {A B} (f : A -> list B) (l : list A) (x : B) :
  x ∈ concat (map f l) ↔ ∃ a, a ∈ l ∧ x ∈ f a.
Proof.
  induction l as [|a l IH]; cbn [map concat].
  - split; [by intros ?%elem_of_nil|]. by intros (a & ?%elem_of_nil & _).
  - rewrite elem_of_app, IH. split.
    + intros [H|(b & Hb & H)]; [exists a|exists b]; split; try done.
      * by left.
      * by right.
    + intros (b & [->|Hb]%elem_of_cons & H); [by left|right; eauto].
Qed.

(** ** Running the solver *)

Lemma log_log (es1 es2 : list Event) (w : World) :
  log es2 (log es1 w) = log (es1 ++ es2)%list w.
Proof. unfold log. simpl. by rewrite app_assoc. Qed.

Lemma log_nil (w : World) : log [] w = w.
Proof. destruct w. unfold log. simpl. by rewrite app_nil_r. Qed.

Lemma for_each_cons {A S} (body : S -> A -> M S) (x : A) (r : list A) (acc : S)
    (w : World) :
  for_each body (x :: r) acc w
  = match body acc x w with
    | (Ok acc', w') => for_each body r acc' w'
    | (Raised e, w') => (Raised e, w')
    end.
Proof. done. Qed.

Lemma bind_run {A B} (c : M A) (k : A -> M B) (w : World) :
  bind c k w
  = match c w with
    | (Ok a, w') => k a w'
    | (Raised e, w') => (Raised e, w')
    end.
Proof. done. Qed.

Lemma emit_run {B} (e : Event) (k : unit -> M B) (w : World) :
  bind (emit e) k w = k tt (log [e] w).
Proof. done. Qed.

(** Unfolds the monad and the collaborators on a world given by its
    components, and nothing else. *)
Ltac run_monad :=
  cbv beta iota zeta delta
    [bind ret emit save prepare_server_https make_addrs_sni_ready
     register_file_creation open_w write add_dir find_dir regexp_source log
     vhosts directives created files trace fst snd].

Section Solver.

Variable linesep : string.
Variable cfg : Config.
Variable gen_response : string -> string -> Response.
Variable get_cert_path get_key_path : AChall -> string.
Variable gen_cert : AChall -> string * string.
Variable str_addr : Addr -> string.
Variable get_aug_path : string -> string.

Local Notation config_text_of :=
  (_get_config_text linesep cfg gen_response get_cert_path get_key_path str_addr).
Local Notation step :=
  (mod_config_step linesep cfg gen_response get_cert_path get_key_path str_addr).
Local Notation mod_config :=
  (_mod_config linesep cfg gen_response get_cert_path get_key_path str_addr
               get_aug_path).
Local Notation setup :=
  (_setup_challenge_cert gen_response get_cert_path get_key_path gen_cert).
Local Notation solve :=
  (perform linesep cfg gen_response get_cert_path get_key_path gen_cert
           str_addr get_aug_path).
Local Notation response_of :=
  (fun a : AChall => gen_response (token a) (account_key a)).
Local Notation choose_events :=
  (map (fun a : AChall => EvChooseVhost (domain a))).

Local Notation block :=
  (block_of linesep cfg gen_response get_cert_path get_key_path str_addr).
Local Notation fragment :=
  (fragment_text linesep cfg gen_response get_cert_path get_key_path str_addr).

Lemma step_run (st : gset Addr * string) (a : AChall) (w : World) :
  step st a w
  = (match vhosts w !! domain a with
     | Some vh => Ok (st.1 ∪ vhost_dvsni_addrs cfg vh,
                      st.2 ++ config_text_of a (vhost_dvsni_addrs cfg vh))
     | None => Raised (NoTargetServer (domain a))
     end,
     log [EvChooseVhost (domain a)] w).
Proof.
  unfold mod_config_step. rewrite bind_run, get_dvsni_addrs_run.
  by destruct (vhosts w !! domain a).
Qed.

Lemma for_each_step_ok (l : list AChall) (st : gset Addr * string) (w : World) :
  all_resolved (vhosts w) l →
  for_each step l st w
  = (Ok (st.1 ∪ ⋃ (map (achall_addrs cfg (vhosts w)) l),
         st.2 ++ sconcat (map (block (vhosts w)) l)),
     log (choose_events l) w).
Proof.
  revert st w. induction l as [|a l IH]; intros st w Hres.
  - cbn. unfold ret. rewrite log_nil, sapp_nil_r, (right_id_L ∅ (∪)).
    by destruct st.
  - apply Forall_cons in Hres as [[vh Hvh] Hres].
    rewrite for_each_cons, step_run, Hvh.
    rewrite IH by done. cbn [fst snd]. rewrite log_log.
    f_equal. f_equal. f_equal.
    + change (vhosts (log [EvChooseVhost (domain a)] w)) with (vhosts w).
      cbn [map union_list foldr]. unfold achall_addrs at 2. rewrite Hvh.
      by rewrite (assoc_L (∪)).
    + change (vhosts (log [EvChooseVhost (domain a)] w)) with (vhosts w).
      rewrite sapp_assoc. f_equal.
      change (sconcat (map (block (vhosts w)) (a :: l)))
        with (block (vhosts w) a ++ sconcat (map (block (vhosts w)) l)).
      f_equal. unfold block_of, achall_addrs. by rewrite Hvh.
Qed.

Lemma for_each_step_raise (l : list AChall) (st : gset Addr * string) (w : World) :
  ¬ all_resolved (vhosts w) l →
  ∃ pre a post,
    l = (pre ++ a :: post)%list ∧ all_resolved (vhosts w) pre ∧
    vhosts w !! domain a = None ∧
    for_each step l st w
    = (Raised (NoTargetServer (domain a)), log (choose_events (pre ++ [a])%list) w).
Proof.
  revert st w. induction l as [|a l IH]; intros st w Hres.
  - destruct Hres. constructor.
  - destruct (vhosts w !! domain a) as [vh|] eqn:Hvh.
    + assert (¬ all_resolved (vhosts w) l) as Hl.
      { intros Hl. apply Hres. constructor; [by eexists|done]. }
      destruct (IH (st.1 ∪ vhost_dvsni_addrs cfg vh,
                    st.2 ++ config_text_of a (vhost_dvsni_addrs cfg vh))
                   (log [EvChooseVhost (domain a)] w) Hl)
        as (pre & b & post & -> & Hpre & Hb & Hrun).
      exists (a :: pre), b, post. split_and!; [done| |done|].
      { constructor; [by eexists|done]. }
      rewrite for_each_cons, step_run, Hvh.
      rewrite Hrun, log_log. done.
    + exists [], a, l. split_and!; [done|constructor|done|].
      by rewrite for_each_cons, step_run, Hvh.
Qed.

End Solver.

Section Phases.

Variable linesep : string.
Variable cfg : Config.
Variable gen_response : string -> string -> Response.
Variable get_cert_path get_key_path : AChall -> string.
Variable gen_cert : AChall -> string * string.
Variable str_addr : Addr -> string.
Variable get_aug_path : string -> string.

Local Notation step :=
  (mod_config_step linesep cfg gen_response get_cert_path get_key_path str_addr).
Local Notation mod_config :=
  (_mod_config linesep cfg gen_response get_cert_path get_key_path str_addr
               get_aug_path).
Local Notation setup :=
  (_setup_challenge_cert gen_response get_cert_path get_key_path gen_cert).
Local Notation setup_st :=
  (setup_step gen_response get_cert_path get_key_path gen_cert).
Local Notation solve :=
  (perform linesep cfg gen_response get_cert_path get_key_path gen_cert
           str_addr get_aug_path).
Local Notation response_of :=
  (fun a : AChall => gen_response (token a) (account_key a)).
Local Notation choose_events :=
  (map (fun a : AChall => EvChooseVhost (domain a))).
Local Notation cert_events :=
  (setup_events get_cert_path get_key_path gen_cert).
Local Notation fragment :=
  (fragment_text linesep cfg gen_response get_cert_path get_key_path str_addr).
Local Notation conf := (challenge_conf cfg).

Local Notation certs := (cert_files get_cert_path get_key_path gen_cert).
Local Notation cert_regs := (cert_created get_cert_path get_key_path).

Lemma setup_run (a : AChall) (w : World) :
  setup a w
  = (Ok (response_of a),
     mkWorld (vhosts w) (directives w)
             (created w ++ cert_regs a)
             (certs (files w) a)
             (trace w ++ cert_events a)).
Proof.
  destruct w as [vs ds cr fs tr].
  unfold _setup_challenge_cert, cert_files, cert_created, setup_events.
  run_monad. do 2 rewrite lookup_insert_eq. cbn [default].
  do 2 rewrite sapp_nil_l. do 2 rewrite insert_insert_eq.
  by repeat rewrite <- app_assoc.
Qed.

Lemma setup_step_run (acc : list Response) (a : AChall) (w : World) :
  setup_st acc a w
  = (Ok (acc ++ [response_of a])%list,
     mkWorld (vhosts w) (directives w)
             (created w ++ cert_regs a)
             (certs (files w) a)
             (trace w ++ cert_events a)).
Proof. unfold setup_step. by rewrite bind_run, setup_run. Qed.

Lemma for_each_setup_run (l : list AChall) (acc : list Response) (w : World) :
  for_each setup_st l acc w
  = (Ok (acc ++ map response_of l)%list,
     mkWorld (vhosts w) (directives w)
             (created w ++ concat (map cert_regs l))
             (foldl certs (files w) l)
             (trace w ++ concat (map cert_events l))).
Proof.
  revert acc w. induction l as [|a l IH]; intros acc w.
  - cbn. unfold ret. rewrite !app_nil_r. by destruct w.
  - rewrite for_each_cons, setup_step_run, IH.
    cbn [vhosts directives created files trace map concat foldl].
    by repeat rewrite <- app_assoc.
Qed.

Lemma conf_include_check_run (main_config : string) (w : World) :
  _conf_include_check cfg get_aug_path main_config w
  = (Ok tt,
     mkWorld (vhosts w)
             (match includes cfg (directives w) with
              | [] => directives w
                      ++ [include_directive cfg get_aug_path main_config]
              | _ :: _ => directives w
              end)
             (created w) (files w)
             (trace w ++ include_events cfg get_aug_path main_config
                                        (directives w))).
Proof.
  destruct w as [vs ds cr fs tr].
  unfold _conf_include_check, include_events, include_directive.
  run_monad.
  change (filter (fun d => dir_matches (case_i "Include") (challenge_conf cfg) d
                           = true) ds)
    with (includes cfg ds).
  destruct (includes cfg ds) as [|d ds']; cbn [length Nat.eqb].
  - run_monad. by rewrite <- app_assoc.
  - done.
Qed.

Lemma mod_config_ok (l : list AChall) (w : World) :
  all_resolved (vhosts w) l →
  mod_config l w
  = (Ok (⋃ map (achall_addrs cfg (vhosts w)) l),
     mkWorld (vhosts w)
             (match includes cfg (directives w) with
              | [] => directives w
                      ++ [include_directive cfg get_aug_path (loc_default cfg)]
              | _ :: _ => directives w
              end)
             (created w ++ [(true, conf)])
             (<[conf := fragment (vhosts w) l]> (files w))
             (trace w ++ choose_events l
                ++ include_events cfg get_aug_path (loc_default cfg)
                                  (directives w)
                ++ [EvRegisterFileCreation true conf; EvOpenW conf;
                    EvWrite conf (fragment (vhosts w) l)])).
Proof.
  intros Hres. unfold _mod_config.
  rewrite bind_run, for_each_step_ok by done.
  rewrite bind_run, conf_include_check_run.
  destruct w as [vs ds cr fs tr]. run_monad.
  rewrite lookup_insert_eq, insert_insert_eq. cbn [default].
  rewrite sapp_nil_l, (left_id_L ∅ (∪)).
  unfold fragment_text. repeat rewrite sapp_assoc.
  by repeat rewrite <- app_assoc.
Qed.

Lemma mod_config_raise (l : list AChall) (w : World) :
  ¬ all_resolved (vhosts w) l →
  ∃ pre a post,
    l = (pre ++ a :: post)%list ∧ all_resolved (vhosts w) pre ∧
    vhosts w !! domain a = None ∧
    mod_config l w
    = (Raised (NoTargetServer (domain a)),
       log (choose_events (pre ++ [a])%list) w).
Proof.
  intros Hres.
  destruct (for_each_step_raise linesep cfg gen_response get_cert_path
              get_key_path str_addr l (∅, "<IfModule mod_ssl.c>" ++ nl) w Hres)
    as (pre & a & post & Hl & Hpre & Ha & Hrun).
  exists pre, a, post. split_and!; [done..|].
  unfold _mod_config. by rewrite bind_run, Hrun.
Qed.


(** *** The whole sequence *)

Lemma perform_ok (l : list AChall) (w : World) :
  l ≠ [] → all_resolved (vhosts w) l →
  solve l w
  = (Ok (map response_of l),
     mkWorld (vhosts w)
             (match includes cfg (directives w) with
              | [] => directives w
                      ++ [include_directive cfg get_aug_path (loc_default cfg)]
              | _ :: _ => directives w
              end)
             (created w ++ concat (map cert_regs l) ++ [(true, conf)])
             (<[conf := fragment (vhosts w) l]> (foldl certs (files w) l))
             (trace w
                ++ [EvSave None false; EvPrepareServerHttps (dvsni_port cfg) true]
                ++ concat (map cert_events l)
                ++ choose_events l
                ++ include_events cfg get_aug_path (loc_default cfg) (directives w)
                ++ [EvRegisterFileCreation true conf; EvOpenW conf;
                    EvWrite conf (fragment (vhosts w) l)]
                ++ [EvMakeAddrsSniReady (⋃ map (achall_addrs cfg (vhosts w)) l);
                    EvSave (Some "SNI Challenge") true])).
Proof.
  intros Hne Hres. destruct l as [|a l]; [done|].
  unfold perform, save, prepare_server_https, make_addrs_sni_ready.
  do 2 rewrite emit_run. rewrite bind_run, for_each_setup_run.
  rewrite bind_run, mod_config_ok by done.
  do 2 rewrite emit_run. destruct w as [vs ds cr fs tr]. run_monad.
  rewrite app_nil_l. f_equal.
  f_equal; by repeat rewrite <- app_assoc.
Qed.

Lemma perform_raise (l : list AChall) (w : World) :
  ¬ all_resolved (vhosts w) l →
  ∃ pre a post,
    l = (pre ++ a :: post)%list ∧ all_resolved (vhosts w) pre ∧
    vhosts w !! domain a = None ∧
    solve l w
    = (Raised (NoTargetServer (domain a)),
       mkWorld (vhosts w) (directives w)
               (created w ++ concat (map cert_regs l))
               (foldl certs (files w) l)
               (trace w
                  ++ [EvSave None false;
                      EvPrepareServerHttps (dvsni_port cfg) true]
                  ++ concat (map cert_events l)
                  ++ choose_events (pre ++ [a]))).
Proof.
  intros Hres. destruct l as [|a0 l0] eqn:El; [destruct Hres; constructor|].
  rewrite <- El in *. clear El.
  set (w1 := mkWorld (vhosts w) (directives w)
               (created w ++ concat (map cert_regs l))
               (foldl certs (files w) l)
               (trace w ++ [EvSave None false;
                            EvPrepareServerHttps (dvsni_port cfg) true]
                  ++ concat (map cert_events l))).
  destruct (mod_config_raise l w1 Hres) as (pre & a & post & Hl & Hpre & Ha & Hrun).
  exists pre, a, post. split_and!; [done..|].
  assert (solve l w
          = match mod_config l w1 with
            | (Ok s, w') =>
                (run make_addrs_sni_ready s in
                 run save (Some "SNI Challenge") true in
                 ret (map response_of l)) w'
            | (Raised e, w') => (Raised e, w')
            end) as ->.
  { subst w1. destruct l as [|a1 l1]; [by destruct pre|].
    unfold perform, save, prepare_server_https.
    do 2 rewrite emit_run. rewrite bind_run, for_each_setup_run.
    rewrite bind_run, app_nil_l. destruct w as [vs ds cr fs tr]. run_monad.
    by repeat rewrite <- app_assoc. }
  rewrite Hrun. unfold w1. destruct w as [vs ds cr fs tr]. run_monad.
  by repeat rewrite <- app_assoc.
Qed.

(** *** The responses *)

(** C1. For a non-empty batch whose domains all have a virtual server,
    [perform] returns one response per challenge, in the order of the
    challenges, and the z-domain of the i-th response is the one computed
    from the token and the account key of the i-th challenge. *)
Theorem perform_responses_aligned (achalls : list AChall) (w : World) :
  achalls ≠ [] → all_resolved (vhosts w) achalls →
  ∃ rs w',
    solve achalls w = (Ok rs, w') ∧
    length rs = length achalls ∧
    ∀ i a, achalls !! i = Some a →
      z_domain <$> rs !! i
      = Some (z_domain (gen_response (token a) (account_key a))).
Proof.
  intros Hne Hres. eexists _, _. split; [by apply perform_ok|]. split.
  - by rewrite length_map.
  - intros i a Hi. by rewrite list_lookup_fmap, Hi.
Qed.

(** C2, as amended.  When some domain of the batch has no virtual server,
    [perform] raises [NoTargetServer] for the first such challenge; by
    then it has saved the configuration, switched the server to HTTPS and
    written the certificate and key of every challenge, and it has done
    nothing else but look up virtual servers: the directives are
    unchanged, the fragment is neither registered nor written, no address
    is made SNI-ready and nothing is committed. *)
Theorem perform_no_target_server (achalls : list AChall) (w : World) :
  ¬ all_resolved (vhosts w) achalls →
  ∃ pre a post w',
    achalls = (pre ++ a :: post)%list ∧
    all_resolved (vhosts w) pre ∧
    vhosts w !! domain a = None ∧
    solve achalls w = (Raised (NoTargetServer (domain a)), w') ∧
    vhosts w' = vhosts w ∧
    directives w' = directives w ∧
    created w' = (created w ++ concat (map cert_regs achalls))%list ∧
    files w' = foldl certs (files w) achalls ∧
    trace w' = (trace w
                  ++ [EvSave None false;
                      EvPrepareServerHttps (dvsni_port cfg) true]
                  ++ concat (map cert_events achalls)
                  ++ choose_events (pre ++ [a]))%list.
Proof.
  intros Hres.
  destruct (perform_raise achalls w Hres) as (pre & a & post & Hl & Hpre & Ha & Hrun).
  exists pre, a, post. eexists. split_and!; [done|done|done|exact Hrun|done..].
Qed.

(** C6. On the empty batch [perform] returns the empty list and leaves
    every collaborator as it was: no call is made. *)
Theorem perform_empty (w : World) : solve [] w = (Ok [], w).
Proof. done. Qed.

End Phases.

(** ** Sizes of images of finite sets *)

Section Images.

Context `{Countable A, Countable B}.

Lemma size_list_to_set_length (l : list B) :
  (size (list_to_set l : gset B) ≤ length l)%nat.
Proof.
  induction l as [|x l IH]; cbn [list_to_set foldr length].
  - by rewrite size_empty.
  - rewrite size_union_alt, size_singleton.
    assert (size (list_to_set l ∖ {[x]} : gset B)
            ≤ size (list_to_set l : gset B))%nat.
    { apply subseteq_size. set_solver. }
    lia.
Qed.

Lemma size_set_map_le (f : A → B) (X : gset A) :
  (size (set_map f X : gset B) ≤ size X)%nat.
Proof.
  unfold set_map. etrans; [apply size_list_to_set_length|].
  by rewrite length_fmap.
Qed.

Lemma size_set_map_inj (f : A → B) (X : gset A) :
  (∀ x y, f x = f y → x = y) →
  size (set_map f X : gset B) = size X.
Proof.
  intros Hinj. unfold set_map. rewrite size_list_to_set; [by rewrite length_fmap|].
  apply NoDup_fmap_2_strong; [|apply NoDup_elements]. auto.
Qed.

Lemma size_set_map_lt (f : A → B) (X : gset A) (a b : A) :
  a ∈ X → b ∈ X → a ≠ b → f a = f b →
  (size (set_map f X : gset B) < size X)%nat.
Proof.
  intros Ha Hb Hab Hf.
  assert (set_map f X = (set_map f (X ∖ {[a]}) : gset B)) as ->.
  { apply set_eq. intros y. rewrite !elem_of_map. split.
    - intros (x & -> & Hx). destruct (decide (x = a)) as [->|Hxa].
      + exists b. split; [done|]. set_solver.
      + exists x. split; [done|]. set_solver.
    - intros (x & -> & Hx). exists x. split; [done|]. set_solver. }
  pose proof (size_set_map_le f (X ∖ {[a]})) as Hle.
  assert (size (X ∖ {[a]}) = size X - 1)%nat as Hsz.
  { rewrite size_difference, size_singleton; [done|]. set_solver. }
  assert (size X ≠ 0)%nat as Hpos.
  { apply size_non_empty_iff. intros Hempty. set_solver. }
  lia.
Qed.

End Images.

(** ** Challenge addresses *)

Section ChallengeAddresses.

Variable cfg : Config.

(** C4. The challenge address of a listening address keeps its host and
    takes the challenge port when the host is not the wildcard marker,
    and is the wildcard at the challenge port when it is, whatever the
    port of the listening address. *)
Theorem dvsni_addr_of_cases (a : Addr) :
  (get_addr a ≠ "_default_" →
     get_addr (dvsni_addr_of cfg a) = get_addr a ∧
     get_port (dvsni_addr_of cfg a) = dvsni_port cfg) ∧
  (get_addr a = "_default_" →
     dvsni_addr_of cfg a = mkAddr "*" (dvsni_port cfg)).
Proof.
  unfold dvsni_addr_of, default_addr, get_sni_addr. split.
  - intros Hne. destruct (String.eqb_spec "_default_" (get_addr a)); [|done].
    by destruct Hne.
  - intros ->. done.
Qed.

Lemma dvsni_addr_of_host (a : Addr) :
  dvsni_addr_of cfg a = mkAddr (challenge_host a) (dvsni_port cfg).
Proof.
  unfold dvsni_addr_of, challenge_host, default_addr, get_sni_addr.
  by destruct (String.eqb "_default_" (get_addr a)).
Qed.

(** C10. The set that [get_dvsni_addrs] returns for a challenge holds
    one element for every host among the listening addresses of the
    virtual host, the wildcard marker counting as the host "*", each at
    the challenge port, and nothing else; so its size is the number of
    these hosts.  Two listening addresses with the same host give the
    same element, and where two different addresses share a host the
    set is strictly smaller than the set of listening addresses;
    addresses with different hosts stay apart.  All wildcard addresses
    give the wildcard at the challenge port, and a virtual host whose
    addresses all have one host gives a set of exactly one element. *)
Theorem get_dvsni_addrs_dedup (achall : AChall) (w : World) (vh : VirtualHost) :
  vhosts w !! domain achall = Some vh →
  ∃ s w',
    get_dvsni_addrs cfg achall w = (Ok s, w') ∧
    NoDup (elements s) ∧
    (∀ x, x ∈ s ↔ ∃ a, a ∈ addrs vh ∧ x = dvsni_addr_of cfg a) ∧
    (∀ a b, a ∈ addrs vh → b ∈ addrs vh → get_addr a = get_addr b →
       dvsni_addr_of cfg a = dvsni_addr_of cfg b ∧ dvsni_addr_of cfg a ∈ s) ∧
    (∀ a, a ∈ addrs vh → get_addr a = "_default_" →
       dvsni_addr_of cfg a = mkAddr "*" (dvsni_port cfg)) ∧
    (∀ x, x ∈ s → get_port x = dvsni_port cfg) ∧
    (∀ h, addrs vh ≠ ∅ → (∀ a, a ∈ addrs vh → get_addr a = h) → size s = 1) ∧
    (∀ x, x ∈ s ↔
       ∃ a, a ∈ addrs vh ∧
            x = mkAddr (if String.eqb "_default_" (get_addr a) then "*"
                        else get_addr a) (dvsni_port cfg)) ∧
    size s = size (set_map challenge_host (addrs vh) : gset string) ∧
    (∀ a b, a ∈ addrs vh → b ∈ addrs vh → a ≠ b → get_addr a = get_addr b →
       (size s < size (addrs vh))%nat) ∧
    (∀ a b, a ∈ addrs vh → b ∈ addrs vh →
       challenge_host a ≠ challenge_host b →
       dvsni_addr_of cfg a ∈ s ∧ dvsni_addr_of cfg b ∈ s ∧
       dvsni_addr_of cfg a ≠ dvsni_addr_of cfg b).
Proof.
  intros Hvh. eexists _, _. rewrite get_dvsni_addrs_run, Hvh.
  split; [done|]. split; [apply NoDup_elements|].
  split; [apply elem_of_vhost_dvsni_addrs|]. split_and!.
  - intros a b Ha Hb Hab. split; [by apply dvsni_addr_of_same_host|].
    apply elem_of_vhost_dvsni_addrs. eauto.
  - intros a _ Ha. by apply dvsni_addr_of_cases.
  - intros x (a & _ & ->)%elem_of_vhost_dvsni_addrs. apply dvsni_addr_of_port.
  - intros h Hne Hall.
    apply set_choose_L in Hne as [a0 Ha0].
    assert (vhost_dvsni_addrs cfg vh = {[ dvsni_addr_of cfg a0 ]}) as ->.
    { apply set_eq. intros x. rewrite elem_of_vhost_dvsni_addrs, elem_of_singleton.
      split.
      - intros (a & Ha & ->). apply dvsni_addr_of_same_host.
        by rewrite (Hall a), (Hall a0).
      - intros ->. eauto. }
    apply size_singleton.
  - intros x. rewrite elem_of_vhost_dvsni_addrs.
    split; intros (a & Ha & ->); exists a; (split; [done|]);
      by rewrite dvsni_addr_of_host.
  - assert (vhost_dvsni_addrs cfg vh
            = set_map (fun h => mkAddr h (dvsni_port cfg))
                      (set_map challenge_host (addrs vh) : gset string)) as ->.
    { apply set_eq. intros x.
      rewrite elem_of_vhost_dvsni_addrs, elem_of_map. split.
      - intros (a & Ha & ->). exists (challenge_host a).
        split; [apply dvsni_addr_of_host|]. apply elem_of_map. eauto.
      - intros (h & -> & (a & -> & Ha)%elem_of_map). exists a.
        split; [done|]. by rewrite dvsni_addr_of_host. }
    apply size_set_map_inj. by intros x y [= ->].
  - intros a b Ha Hb Hab Hhost. unfold vhost_dvsni_addrs.
    apply (size_set_map_lt _ _ a b); try done.
    by apply dvsni_addr_of_same_host.
  - intros a b Ha Hb Hhost. split_and!.
    + apply elem_of_vhost_dvsni_addrs. eauto.
    + apply elem_of_vhost_dvsni_addrs. eauto.
    + rewrite !dvsni_addr_of_host. by intros [= ?].
Qed.

End ChallengeAddresses.

(** ** The include of the fragment *)

Section Include.

Variable cfg : Config.
Variable get_aug_path : string -> string.

Local Notation check := (_conf_include_check cfg get_aug_path).

Lemma include_directive_matches (main_config : string) :
  dir_matches (case_i "Include") (challenge_conf cfg)
              (include_directive cfg get_aug_path main_config) = true.
Proof.
  unfold dir_matches, include_directive. cbn [dir_name dir_arg regexp_match].
  by rewrite !String.eqb_refl.
Qed.

Lemma includes_snoc (main_config : string) (ds : list Directive) :
  includes cfg (ds ++ [include_directive cfg get_aug_path main_config])
  = (includes cfg ds ++ [include_directive cfg get_aug_path main_config])%list.
Proof.
  unfold includes. rewrite filter_app. f_equal.
  rewrite filter_cons_True by apply include_directive_matches. done.
Qed.

(** C5. The include check never fails; running it a second time changes
    no directive; after two runs the configuration holds one include of
    the fragment if it had none, and as many as before otherwise; and if
    an include of the fragment was there, no directive changes at all. *)
Theorem conf_include_check_idempotent (main_config : string) (w : World) :
  let w1 := (check main_config w).2 in
  let w2 := (check main_config w1).2 in
  (check main_config w).1 = Ok tt ∧
  (check main_config w1).1 = Ok tt ∧
  directives w2 = directives w1 ∧
  length (includes cfg (directives w2))
  = Nat.max 1 (length (includes cfg (directives w))) ∧
  (includes cfg (directives w) ≠ [] → directives w2 = directives w).
Proof.
  cbn zeta. rewrite !conf_include_check_run.
  cbn [fst snd vhosts directives created files trace].
  destruct (includes cfg (directives w)) as [|d ds] eqn:Hinc.
  - rewrite includes_snoc, Hinc. cbn [app]. split_and!; try done.
    by rewrite includes_snoc, Hinc.
  - rewrite Hinc. split_and!; [done..| |done].
    rewrite Hinc. cbn [length]. lia.
Qed.

End Include.

(** ** The fragment and the addresses made SNI-ready *)

Section WrittenFragment.

Variable linesep : string.
Variable cfg : Config.
Variable gen_response : string -> string -> Response.
Variable get_cert_path get_key_path : AChall -> string.
Variable gen_cert : AChall -> string * string.
Variable str_addr : Addr -> string.
Variable get_aug_path : string -> string.

Local Notation solve :=
  (perform linesep cfg gen_response get_cert_path get_key_path gen_cert
           str_addr get_aug_path).
Local Notation fragment :=
  (fragment_text linesep cfg gen_response get_cert_path get_key_path str_addr).
Local Notation block :=
  (block_of linesep cfg gen_response get_cert_path get_key_path str_addr).
Local Notation conf := (challenge_conf cfg).
Local Notation cert_events :=
  (setup_events get_cert_path get_key_path gen_cert).

Lemma elem_of_union_achall_addrs (vs : gmap string VirtualHost)
    (achalls : list AChall) (x : Addr) :
  x ∈ ⋃ map (achall_addrs cfg vs) achalls
  ↔ ∃ a vh addr, a ∈ achalls ∧ vs !! domain a = Some vh ∧
                 addr ∈ addrs vh ∧ x = dvsni_addr_of cfg addr.
Proof.
  rewrite elem_of_union_list. split.
  - intros (X & HX & Hx). apply list_elem_of_fmap in HX as (a & -> & Ha).
    unfold achall_addrs in Hx. destruct (vs !! domain a) as [vh|] eqn:Hvh.
    + apply elem_of_vhost_dvsni_addrs in Hx as (addr & Haddr & ->).
      by exists a, vh, addr.
    + by apply not_elem_of_empty in Hx.
  - intros (a & vh & addr & Ha & Hvh & Haddr & ->).
    exists (achall_addrs cfg vs a). split.
    + apply list_elem_of_fmap. eauto.
    + unfold achall_addrs. rewrite Hvh. apply elem_of_vhost_dvsni_addrs. eauto.
Qed.

Lemma elem_of_once (s : gset Addr) (x : Addr) :
  x ∈ s → ∃ l1 l2, elements s = (l1 ++ (x :: l2))%list ∧ (x ∉ l1) ∧ (x ∉ l2).
Proof.
  intros Hx. apply elem_of_elements, list_elem_of_split in Hx as (l1 & l2 & Hs).
  exists l1, l2. split; [done|].
  pose proof (NoDup_elements s) as Hnd. rewrite Hs in Hnd.
  apply NoDup_app in Hnd as (_ & Hdisj & Hnd2).
  apply NoDup_cons in Hnd2 as [Hx2 _]. split; [|done].
  intros Hx1. apply (Hdisj x Hx1). by left.
Qed.

(** C7. In a successful run the set handed to the SNI-ready switch is
    the union of the challenge addresses of all challenges; it is handed
    over once, and it holds every address once: an address shared by the
    virtual servers of two challenges occurs at exactly one position of
    the elements of the set. *)
Theorem sni_ready_addrs_once (achalls : list AChall) (w : World) :
  achalls ≠ [] → all_resolved (vhosts w) achalls →
  ∃ rs w' pre s,
    solve achalls w = (Ok rs, w') ∧
    trace w' = (trace w ++ pre
                  ++ [EvMakeAddrsSniReady s; EvSave (Some "SNI Challenge") true])%list ∧
    (∀ s', EvMakeAddrsSniReady s' ∉ pre) ∧
    NoDup (elements s) ∧
    (∀ x, x ∈ s ↔ ∃ a vh addr, a ∈ achalls ∧ vhosts w !! domain a = Some vh ∧
                                addr ∈ addrs vh ∧ x = dvsni_addr_of cfg addr) ∧
    (∀ a b vha vhb addr,
       a ∈ achalls → b ∈ achalls →
       vhosts w !! domain a = Some vha → vhosts w !! domain b = Some vhb →
       addr ∈ addrs vha → addr ∈ addrs vhb →
       ∃ l1 l2, elements s = (l1 ++ (dvsni_addr_of cfg addr :: l2))%list ∧
                (dvsni_addr_of cfg addr ∉ l1) ∧ (dvsni_addr_of cfg addr ∉ l2)).
Proof.
  intros Hne Hres.
  exists (map (fun a => gen_response (token a) (account_key a)) achalls).
  eexists.
  exists ([EvSave None false; EvPrepareServerHttps (dvsni_port cfg) true]
            ++ concat (map cert_events achalls)
            ++ map (fun a => EvChooseVhost (domain a)) achalls
            ++ include_events cfg get_aug_path (loc_default cfg) (directives w)
            ++ [EvRegisterFileCreation true conf; EvOpenW conf;
                EvWrite conf (fragment (vhosts w) achalls)])%list.
  exists (⋃ map (achall_addrs cfg (vhosts w)) achalls).
  split; [by apply perform_ok|]. split.
  { cbn [trace]. by rewrite <- !app_assoc. }
  split.
  { intros s'. rewrite !elem_of_app, !elem_of_cons, elem_of_nil.
    intros [H|[H|[H|[H|H]]]].
    - naive_solver.
    - apply elem_of_concat_map in H as (a & _ & H).
      unfold setup_events in H. rewrite !elem_of_cons, elem_of_nil in H.
      naive_solver.
    - apply list_elem_of_fmap in H as (a & ? & _). done.
    - unfold include_events in H. rewrite elem_of_cons in H.
      destruct H as [H|H]; [done|].
      destruct (includes cfg (directives w));
        rewrite ?elem_of_cons, ?elem_of_nil in H; naive_solver.
    - naive_solver. }
  split; [apply NoDup_elements|].
  split; [apply elem_of_union_achall_addrs|].
  intros a b vha vhb addr Ha Hb Hvha Hvhb Haa Hab.
  apply elem_of_once, elem_of_union_achall_addrs. by exists a, vha, addr.
Qed.

(** C8. In a successful run the fragment file is registered with the
    reverter as a new file, then opened for writing, then written, in
    this order and with nothing in between.  Of the calls of the run
    before the registration, those that open or write a file all belong
    to the certificate set-up of a challenge; so unless a certificate or
    key path of the batch is the path of the fragment itself, the
    fragment is neither opened nor written before it is registered.  It
    is not opened or written again afterwards, and what it holds in the
    end is the rendered fragment, whatever it held before. *)
Theorem fragment_registered_before_write (achalls : list AChall) (w : World) :
  achalls ≠ [] → all_resolved (vhosts w) achalls →
  ∃ rs w' pre post text,
    solve achalls w = (Ok rs, w') ∧
    trace w' = (trace w ++ pre
                  ++ [EvRegisterFileCreation true conf; EvOpenW conf;
                      EvWrite conf text]
                  ++ post)%list ∧
    (∀ e, e ∈ pre → (∃ p, e = EvOpenW p) ∨ (∃ p t, e = EvWrite p t) →
       ∃ a, a ∈ achalls ∧ e ∈ cert_events a) ∧
    (Forall (fun a => get_cert_path a ≠ conf ∧ get_key_path a ≠ conf) achalls →
     ∀ e, e ∈ pre → e ≠ EvOpenW conf ∧ ∀ t, e ≠ EvWrite conf t) ∧
    (∀ e, e ∈ post → e ≠ EvOpenW conf ∧ ∀ t, e ≠ EvWrite conf t) ∧
    (true, conf) ∈ created w' ∧
    files w' !! conf = Some text ∧
    text = fragment (vhosts w) achalls.
Proof.
  intros Hne Hres.
  exists (map (fun a => gen_response (token a) (account_key a)) achalls).
  eexists.
  exists ([EvSave None false; EvPrepareServerHttps (dvsni_port cfg) true]
            ++ concat (map cert_events achalls)
            ++ map (fun a => EvChooseVhost (domain a)) achalls
            ++ include_events cfg get_aug_path (loc_default cfg) (directives w))%list.
  exists [EvMakeAddrsSniReady (⋃ map (achall_addrs cfg (vhosts w)) achalls);
          EvSave (Some "SNI Challenge") true].
  exists (fragment (vhosts w) achalls).
  split; [by apply perform_ok|]. cbn [trace created files].
  assert (∀ e, e ∈ include_events cfg get_aug_path (loc_default cfg) (directives w) →
            (∃ d a, e = EvFindDir d a) ∨ (∃ p d a, e = EvAddDir p d a)) as Hinc.
  { intros e. unfold include_events.
    destruct (includes cfg (directives w));
      rewrite ?elem_of_cons, ?elem_of_nil; intros He.
    - destruct He as [->|[->|[]]]; [left|right]; eauto.
    - destruct He as [->|[]]. left. eauto. }
  assert (∀ e, e ∈ ([EvSave None false; EvPrepareServerHttps (dvsni_port cfg) true]
                      ++ concat (map cert_events achalls)
                      ++ map (fun a => EvChooseVhost (domain a)) achalls
                      ++ include_events cfg get_aug_path (loc_default cfg)
                           (directives w))%list →
            (∃ p, e = EvOpenW p) ∨ (∃ p t, e = EvWrite p t) →
            ∃ a, a ∈ achalls ∧ e ∈ cert_events a) as Hpre.
  { intros e He Hkind. rewrite !elem_of_app in He.
    destruct He as [He|[He|[He|He]]].
    - rewrite !elem_of_cons, elem_of_nil in He.
      destruct He as [->|[->|[]]]; destruct Hkind as [[? ?]|(? & ? & ?)]; discriminate.
    - by apply elem_of_concat_map in He.
    - apply list_elem_of_fmap in He as (a & -> & _).
      destruct Hkind as [[? ?]|(? & ? & ?)]; discriminate.
    - apply Hinc in He as [(d & a & ->)|(p & d & a & ->)];
        destruct Hkind as [[? ?]|(? & ? & ?)]; discriminate. }
  split_and!.
  - by rewrite <- !app_assoc.
  - exact Hpre.
  - intros Hpaths e He.
    assert (∀ a, a ∈ achalls → (EvOpenW conf ∉ cert_events a) ∧
                                (∀ t, EvWrite conf t ∉ cert_events a)) as Hcert.
    { intros a Ha. rewrite Forall_forall in Hpaths.
      destruct (Hpaths a Ha) as [Hc Hk]. unfold setup_events.
      split; [|intros t]; rewrite !elem_of_cons, elem_of_nil;
        intros [H|[H|[H|[H|[H|[H|[]]]]]]]; try discriminate H;
        injection H; congruence. }
    split.
    + intros ->. destruct (Hpre _ He) as (a & Ha & Hin); [left; eauto|].
      by apply (proj1 (Hcert a Ha)).
    + intros t ->. destruct (Hpre _ He) as (a & Ha & Hin); [right; eauto|].
      by apply (proj2 (Hcert a Ha) t).
  - intros e. rewrite !elem_of_cons, elem_of_nil. naive_solver.
  - rewrite !elem_of_app, list_elem_of_singleton. auto.
  - apply lookup_insert_eq.
  - done.
Qed.

End WrittenFragment.

(** ** Counting the blocks of a fragment *)

Lemma has_char_app (c : ascii) (a b : string) :
  has_char c (a ++ b) = has_char c a || has_char c b.
Proof.
  induction a as [|x a IH]; [done|].
  rewrite sapp_cons. cbn [has_char]. by rewrite IH, orb_assoc.
Qed.

Lemma replace_nl_app (sep a b : string) :
  replace_nl sep (a ++ b) = replace_nl sep a ++ replace_nl sep b.
Proof.
  induction a as [|x a IH]; [done|].
  rewrite sapp_cons. cbn [replace_nl]. by rewrite IH, sapp_assoc.
Qed.

Lemma replace_nl_id (sep s : string) :
  has_char LF s = false → replace_nl sep s = s.
Proof.
  induction s as [|x s IH]; [done|].
  cbn [has_char replace_nl]. intros [Hx Hs]%orb_false_iff.
  rewrite (IH Hs). rewrite Ascii.eqb_sym in Hx. by rewrite Hx.
Qed.

Lemma replace_nl_nl (sep : string) : replace_nl sep nl = sep.
Proof.
  unfold nl. cbn [replace_nl]. by rewrite Ascii.eqb_refl, sapp_nil_r.
Qed.

Lemma has_char_replace_nl (c : ascii) (sep s : string) :
  has_char c sep = false → has_char c s = false →
  has_char c (replace_nl sep s) = false.
Proof.
  intros Hsep. induction s as [|x s IH]; [done|].
  cbn [has_char replace_nl]. intros [Hx Hs]%orb_false_iff.
  rewrite has_char_app, (IH Hs), orb_false_r.
  destruct (Ascii.eqb x LF); [done|]. cbn [has_char]. by rewrite Hx.
Qed.

Lemma has_char_join (c : ascii) (sep : string) (xs : list string) :
  has_char c sep = false → Forall (fun x => has_char c x = false) xs →
  has_char c (join sep xs) = false.
Proof.
  intros Hsep. induction 1 as [|x xs Hx Hxs IH]; [done|].
  cbn [join]. destruct xs as [|y ys]; [done|].
  by rewrite !has_char_app, Hx, Hsep, IH.
Qed.

Lemma has_char_os_path_join (c : ascii) (a b : string) :
  has_char c a = false → has_char c b = false → has_char c "/" = false →
  has_char c (os_path_join a b) = false.
Proof.
  intros Ha Hb Hc. unfold os_path_join.
  destruct (startswith_slash b); [done|].
  destruct (String.eqb a "" || endswith_slash a)%bool;
    rewrite ?has_char_app, Ha, ?Hc, Hb; done.
Qed.

Lemma format_app (t1 t2 : list Piece) (kw : Field -> string) :
  format (t1 ++ t2) kw = format t1 kw ++ format t2 kw.
Proof.
  induction t1 as [|[s|f] t1 IH]; [done|..]; cbn [app format];
    by rewrite IH, sapp_assoc.
Qed.

Lemma has_char_format (c : ascii) (sep : string) (t : list Piece)
    (kw : Field -> string) :
  has_char c sep = false →
  Forall (fun p => has_char c (piece_text kw p) = false) t →
  has_char c (replace_nl sep (format t kw)) = false.
Proof.
  intros Hsep. induction 1 as [|p t Hp Ht IH]; [done|].
  destruct p as [s|f]; cbn [format piece_text] in *;
    by rewrite replace_nl_app, has_char_app, (has_char_replace_nl _ _ _ Hsep Hp), IH.
Qed.

Lemma count_sub_skip (s t : string) :
  has_char "<" s = false → count_sub open_tag (s ++ t) = count_sub open_tag t.
Proof.
  induction s as [|x s IH]; [done|].
  cbn [has_char]. intros [Hx Hs]%orb_false_iff.
  rewrite sapp_cons. cbn [count_sub]. rewrite (IH Hs).
  unfold open_tag at 1. cbn [String.prefix].
  destruct (ascii_dec "<" x) as [<-|_]; [done|]. done.
Qed.

Lemma count_sub_open (t : string) :
  count_sub open_tag (open_tag ++ t) = S (count_sub open_tag t).
Proof.
  change (open_tag ++ t) with (String "<" ("VirtualHost " ++ t)).
  cbn [count_sub]. rewrite (count_sub_skip "VirtualHost " t) by done.
  assert (String.prefix open_tag (String "<" ("VirtualHost " ++ t)) = true) as ->; [|done].
  change (String "<" ("VirtualHost " ++ t)) with (open_tag ++ t).
  unfold open_tag. generalize "<VirtualHost ". intros p.
  induction p as [|x p IH]; [by destruct t|].
  rewrite sapp_cons. cbn [String.prefix]. by destruct (ascii_dec x x).
Qed.

Lemma count_sub_other_tag (x : ascii) (s t : string) :
  x ≠ "V"%char → has_char "<" (String x s) = false →
  count_sub open_tag (String "<" (String x s) ++ t) = count_sub open_tag t.
Proof.
  intros Hx Hs. rewrite sapp_cons. cbn [count_sub].
  rewrite (count_sub_skip (String x s) t Hs).
  unfold open_tag at 1. rewrite sapp_cons. cbn [String.prefix].
  destruct (ascii_dec "<" "<"); [|done].
  by destruct (ascii_dec "V" x) as [<-|_].
Qed.

Section Blocks.

Variable linesep : string.
Variable cfg : Config.
Variable gen_response : string -> string -> Response.
Variable get_cert_path get_key_path : AChall -> string.
Variable str_addr : Addr -> string.
Variable get_aug_path : string -> string.

Local Notation config_text_of :=
  (_get_config_text linesep cfg gen_response get_cert_path get_key_path str_addr).
Local Notation mod_config :=
  (_mod_config linesep cfg gen_response get_cert_path get_key_path str_addr
               get_aug_path).
Local Notation block :=
  (block_of linesep cfg gen_response get_cert_path get_key_path str_addr).
Local Notation fragment :=
  (fragment_text linesep cfg gen_response get_cert_path get_key_path str_addr).
Local Notation conf := (challenge_conf cfg).
Local Notation tag_free_block :=
  (block_tag_free linesep cfg gen_response get_cert_path get_key_path str_addr).
Local Notation tag_free_batch :=
  (batch_tag_free linesep cfg gen_response get_cert_path get_key_path str_addr).

Lemma config_text_empty_addrs (a : AChall) :
  ∃ rest, config_text_of a ∅ = "<VirtualHost >" ++ linesep ++ rest.
Proof.
  eexists. unfold _get_config_text. rewrite elements_empty. reflexivity.
Qed.

Lemma config_text_count (a : AChall) (ips : gset Addr) (t : string) :
  tag_free_block a ips = true →
  count_sub open_tag (config_text_of a ips ++ t) = S (count_sub open_tag t).
Proof.
  unfold block_tag_free, tag_free. rewrite !andb_true_iff, !negb_true_iff.
  intros ((((((Hsep & Haddr) & Hz) & Hssl) & Hcert) & Hkey) & Hwd).
  unfold _get_config_text.
  set (kw := fun f : Field => match f with
                              | vhost => _ | server_name => _
                              | ssl_options_conf_path => _ | cert_path => _
                              | key_path => _ | document_root => _ end).
  assert (VHOST_TEMPLATE
          = ([Lit open_tag] ++ take 27 (drop 1 VHOST_TEMPLATE)
               ++ [Lit "</VirtualHost>"; NL; NL])%list) as -> by done.
  rewrite !format_app, !replace_nl_app, !sapp_assoc.
  assert (replace_nl linesep (format [Lit open_tag] kw) = open_tag) as -> by done.
  rewrite count_sub_open. f_equal.
  rewrite count_sub_skip.
  2:{ apply has_char_format; [done|].
      assert (∀ f, has_char "<" (kw f) = false) as Hkw.
      { intros []; cbn [kw]; try done.
        - apply has_char_join; [done|]. apply Forall_forall.
          intros x (y & -> & Hy)%list_elem_of_fmap.
          rewrite forallb_forall in Haddr. apply negb_true_iff, Haddr.
          by apply list_elem_of_In.
        - by apply has_char_os_path_join. }
      cbv [take drop VHOST_TEMPLATE NL].
      repeat (apply Forall_cons; split; [first [exact (Hkw _) | reflexivity]|]).
      apply Forall_nil_2. }
  assert (replace_nl linesep (format [Lit "</VirtualHost>"; NL; NL] kw)
          = "</VirtualHost>" ++ (linesep ++ linesep)) as ->.
  { change (format [Lit "</VirtualHost>"; NL; NL] kw)
      with ("</VirtualHost>" ++ (nl ++ (nl ++ ""))).
    rewrite !replace_nl_app, !replace_nl_nl, replace_nl_id by done.
    by rewrite sapp_nil_r. }
  rewrite sapp_assoc.
  rewrite (count_sub_other_tag "/" "VirtualHost>" _) by done.
  rewrite sapp_assoc, !count_sub_skip by done. done.
Qed.

Lemma sconcat_blocks_count (vs : gmap string VirtualHost) (l : list AChall)
    (t : string) :
  tag_free_batch vs l = true →
  count_sub open_tag (sconcat (map (block vs) l) ++ t)
  = length l + count_sub open_tag t.
Proof.
  unfold batch_tag_free. induction l as [|a l IH]; [done|].
  cbn [forallb]. intros [Ha Hl]%andb_true_iff.
  change (sconcat (map (block vs) (a :: l)))
    with (block vs a ++ sconcat (map (block vs) l)).
  rewrite sapp_assoc. unfold block_of at 1.
  rewrite config_text_count, IH by done. done.
Qed.

Lemma fragment_count (vs : gmap string VirtualHost) (l : list AChall) :
  tag_free_batch vs l = true → count_sub open_tag (fragment vs l) = length l.
Proof.
  intros Hfree. unfold fragment_text.
  rewrite (count_sub_other_tag "I" "fModule mod_ssl.c>" _) by done.
  rewrite count_sub_skip by done.
  rewrite sconcat_blocks_count by done.
  assert (count_sub open_tag ("</IfModule>" ++ nl) = 0) as -> by done. lia.
Qed.


End Blocks.

(** ** Line endings *)

Section LineEndings.

Variable cfg : Config.
Variable gen_response : string -> string -> Response.
Variable get_cert_path get_key_path : AChall -> string.
Variable gen_cert : AChall -> string * string.
Variable str_addr : Addr -> string.
Variable get_aug_path : string -> string.

(** C3 fails on the code.  Only [_get_config_text] replaces the line
    feeds of its block by [os.linesep]; the two guard lines that
    [_mod_config] adds keep their line feed.  Where the line terminator
    is carriage return and line feed, the text written to the fragment
    file in a successful run therefore has a line ending that is not the
    native one. *)
Theorem guard_lines_not_native (achalls : list AChall) (w : World) :
  achalls ≠ [] → all_resolved (vhosts w) achalls →
  ∃ rs w' text,
    perform crlf cfg gen_response get_cert_path get_key_path gen_cert
            str_addr get_aug_path achalls w = (Ok rs, w') ∧
    files w' !! challenge_conf cfg = Some text ∧
    EvWrite (challenge_conf cfg) text ∈ trace w' ∧
    native_line_endings crlf text = false.
Proof.
  intros Hne Hres. eexists _, _, _.
  split; [by apply perform_ok|]. cbn [files trace]. split_and!.
  - apply lookup_insert_eq.
  - rewrite !elem_of_app, !elem_of_cons. auto 10.
  - done.
Qed.

End LineEndings.

(** * The solver at work *)

Lemma example_resolved :
  all_resolved (vhosts Example.world)
               [Example.chall_a; Example.chall_b; Example.chall_c;
                Example.chall_empty].
Proof. repeat constructor; by eexists. Defined.

Lemma example_unresolved :
  ¬ all_resolved (vhosts Example.world) [Example.chall_a; Example.chall_missing].
Proof.
  intros H. apply Forall_cons in H as [_ H]. apply Forall_cons in H as [[vh H] _].
  vm_compute in H. discriminate.
Defined.

Lemma perform_responses_aligned_witness :
  [Example.chall_a; Example.chall_b; Example.chall_c; Example.chall_empty] ≠ [] ∧
  all_resolved (vhosts Example.world)
    [Example.chall_a; Example.chall_b; Example.chall_c; Example.chall_empty] ∧
  ∃ rs w',
    Example.solve nl
      [Example.chall_a; Example.chall_b; Example.chall_c; Example.chall_empty]
      Example.world = (Ok rs, w') ∧
    length rs = 4 ∧
    z_domain <$> rs !! 1 = Some "T2.K.acme.invalid".
Proof.
  split; [discriminate|]. split; [exact example_resolved|].
  destruct (perform_responses_aligned nl Example.cfg Example.gen_response
              Example.get_cert_path Example.get_key_path Example.gen_cert
              Example.str_addr Example.get_aug_path
              [Example.chall_a; Example.chall_b; Example.chall_c;
               Example.chall_empty]
              Example.world ltac:(discriminate) example_resolved)
    as (rs & w' & Hrun & Hlen & Hz).
  exists rs, w'. split; [exact Hrun|]. split; [exact Hlen|].
  exact (Hz 1 Example.chall_b eq_refl).
Defined.

Lemma perform_no_target_server_witness :
  ¬ all_resolved (vhosts Example.world) [Example.chall_a; Example.chall_missing] ∧
  ∃ w',
    Example.solve nl [Example.chall_a; Example.chall_missing] Example.world
    = (Raised (NoTargetServer "missing.example"), w') ∧
    directives w' = [] ∧
    EvSave None false ∈ trace w'.
Proof.
  split; [exact example_unresolved|].
  destruct (perform_no_target_server nl Example.cfg Example.gen_response
              Example.get_cert_path Example.get_key_path Example.gen_cert
              Example.str_addr Example.get_aug_path
              [Example.chall_a; Example.chall_missing] Example.world
              example_unresolved)
    as (pre & a & post & w' & Hl & Hpre & Ha & Hrun & _ & Hdirs & _ & _ & Htr).
  exists w'.
  assert (a = Example.chall_missing) as ->.
  { destruct pre as [|x [|y pre]].
    - injection Hl as <- _. vm_compute in Ha. discriminate Ha.
    - injection Hl as _ <- _. reflexivity.
    - injection Hl as _ _ Hl. destruct pre; discriminate Hl. }
  split; [exact Hrun|]. split; [exact Hdirs|].
  rewrite Htr. apply elem_of_app. right. by left.
Defined.

(** C2 as stated fails: on a batch with a missing virtual server the run
    does stop with [NoTargetServer], but only after files were registered
    with the reverter. *)
Lemma no_target_server_after_mutation :
  ¬ all_resolved (vhosts Example.world) [Example.chall_missing] ∧
  ¬ aborts_before_mutation (Example.solve nl [Example.chall_missing])
      Example.world.
Proof.
  split.
  - intros H. apply Forall_cons in H as [[vh H] _]. vm_compute in H. discriminate.
  - intros (d & w' & Hrun & _ & Hcr & _).
    assert (created (Example.solve nl [Example.chall_missing] Example.world).2
            = [(true, "/var/lib/letsencrypt/T5.pem");
               (true, "/var/lib/letsencrypt/T5.crt")]) as Hc by (vm_compute; done).
    rewrite Hrun in Hc. cbn [snd] in Hc. rewrite Hcr in Hc. discriminate.
Qed.

Lemma guard_lines_not_native_witness :
  [Example.chall_a] ≠ [] ∧
  all_resolved (vhosts Example.world) [Example.chall_a] ∧
  ∃ rs w' text,
    Example.solve crlf [Example.chall_a] Example.world = (Ok rs, w') ∧
    files w' !! challenge_conf Example.cfg = Some text ∧
    EvWrite (challenge_conf Example.cfg) text ∈ trace w' ∧
    native_line_endings crlf text = false.
Proof.
  assert (all_resolved (vhosts Example.world) [Example.chall_a]) as Hres.
  { repeat constructor. by eexists. }
  split; [discriminate|]. split; [exact Hres|].
  exact (guard_lines_not_native Example.cfg Example.gen_response
           Example.get_cert_path Example.get_key_path Example.gen_cert
           Example.str_addr Example.get_aug_path [Example.chall_a] Example.world
           ltac:(discriminate) Hres).
Defined.

Lemma dvsni_addr_of_cases_witness :
  get_addr (mkAddr "10.0.0.1" "80") ≠ "_default_" ∧
  get_addr (mkAddr "_default_" "80") = "_default_" ∧
  dvsni_addr_of Example.cfg (mkAddr "10.0.0.1" "80") = mkAddr "10.0.0.1" "5001" ∧
  dvsni_addr_of Example.cfg (mkAddr "_default_" "80") = mkAddr "*" "5001".
Proof.
  split; [discriminate|]. split; [reflexivity|]. split.
  - destruct (dvsni_addr_of_cases Example.cfg (mkAddr "10.0.0.1" "80")) as [H _].
    destruct (H ltac:(discriminate)) as [Hh Hp].
    destruct (dvsni_addr_of Example.cfg (mkAddr "10.0.0.1" "80")) as [h p].
    cbn in Hh, Hp. by rewrite Hh, Hp.
  - destruct (dvsni_addr_of_cases Example.cfg (mkAddr "_default_" "80")) as [_ H].
    exact (H eq_refl).
Defined.

Lemma conf_include_check_idempotent_witness :
  let check := _conf_include_check Example.cfg Example.get_aug_path
                 "/etc/apache2/apache2.conf" in
  let w := (check Example.world).2 in
  includes Example.cfg (directives w) ≠ [] ∧
  directives (check (check w).2).2 = directives w ∧
  length (includes Example.cfg (directives (check (check w).2).2)) = 1.
Proof.
  cbn zeta.
  set (w := (_conf_include_check Example.cfg Example.get_aug_path
               "/etc/apache2/apache2.conf" Example.world).2).
  assert (includes Example.cfg (directives w) ≠ []) as Hne
    by (vm_compute; discriminate).
  destruct (conf_include_check_idempotent Example.cfg Example.get_aug_path
              "/etc/apache2/apache2.conf" w)
    as (_ & _ & _ & Hlen & Hsame).
  split; [exact Hne|]. split; [exact (Hsame Hne)|].
  rewrite Hlen. vm_compute. reflexivity.
Defined.

Lemma sni_ready_addrs_once_witness :
  [Example.chall_b; Example.chall_c] ≠ [] ∧
  all_resolved (vhosts Example.world) [Example.chall_b; Example.chall_c] ∧
  ∃ rs w' pre s,
    Example.solve nl [Example.chall_b; Example.chall_c] Example.world = (Ok rs, w') ∧
    trace w' = (trace Example.world ++ pre
                  ++ [EvMakeAddrsSniReady s; EvSave (Some "SNI Challenge") true])%list ∧
    ∃ l1 l2, elements s = (l1 ++ (mkAddr "10.0.0.5" "5001" :: l2))%list ∧
             (mkAddr "10.0.0.5" "5001" ∉ l1) ∧ (mkAddr "10.0.0.5" "5001" ∉ l2).
Proof.
  assert (all_resolved (vhosts Example.world) [Example.chall_b; Example.chall_c])
    as Hres.
  { repeat constructor; by eexists. }
  split; [discriminate|]. split; [exact Hres|].
  destruct (sni_ready_addrs_once nl Example.cfg Example.gen_response
              Example.get_cert_path Example.get_key_path Example.gen_cert
              Example.str_addr Example.get_aug_path
              [Example.chall_b; Example.chall_c] Example.world
              ltac:(discriminate) Hres)
    as (rs & w' & pre & s & Hrun & Htr & _ & _ & _ & Honce).
  exists rs, w', pre, s. split; [exact Hrun|]. split; [exact Htr|].
  apply (Honce Example.chall_b Example.chall_c Example.vh_b Example.vh_b
               (mkAddr "10.0.0.5" "443")).
  - apply elem_of_cons. by left.
  - apply elem_of_cons. right. apply elem_of_cons. by left.
  - reflexivity.
  - reflexivity.
  - vm_compute. reflexivity.
  - vm_compute. reflexivity.
Defined.

Lemma fragment_registered_before_write_witness :
  [Example.chall_a] ≠ [] ∧
  all_resolved (vhosts Example.world) [Example.chall_a] ∧
  Forall (fun a => Example.get_cert_path a ≠ challenge_conf Example.cfg ∧
                   Example.get_key_path a ≠ challenge_conf Example.cfg)
         [Example.chall_a] ∧
  ∃ rs w' pre post text,
    Example.solve nl [Example.chall_a] Example.world = (Ok rs, w') ∧
    trace w' = (trace Example.world ++ pre
                  ++ [EvRegisterFileCreation true (challenge_conf Example.cfg);
                      EvOpenW (challenge_conf Example.cfg);
                      EvWrite (challenge_conf Example.cfg) text]
                  ++ post)%list ∧
    (∀ e, e ∈ pre → e ≠ EvOpenW (challenge_conf Example.cfg) ∧
                    ∀ t, e ≠ EvWrite (challenge_conf Example.cfg) t) ∧
    (∀ e, e ∈ post → e ≠ EvOpenW (challenge_conf Example.cfg) ∧
                     ∀ t, e ≠ EvWrite (challenge_conf Example.cfg) t) ∧
    files w' !! challenge_conf Example.cfg = Some text.
Proof.
  assert (all_resolved (vhosts Example.world) [Example.chall_a]) as Hres.
  { repeat constructor. by eexists. }
  assert (Forall (fun a => Example.get_cert_path a ≠ challenge_conf Example.cfg ∧
                           Example.get_key_path a ≠ challenge_conf Example.cfg)
                 [Example.chall_a]) as Hpaths.
  { repeat constructor; vm_compute; discriminate. }
  split; [discriminate|]. split; [exact Hres|]. split; [exact Hpaths|].
  destruct (fragment_registered_before_write nl Example.cfg Example.gen_response
              Example.get_cert_path Example.get_key_path Example.gen_cert
              Example.str_addr Example.get_aug_path
              [Example.chall_a] Example.world ltac:(discriminate) Hres)
    as (rs & w' & pre & post & text & Hrun & Htr & _ & Hpre & Hpost & _ & Hfile & _).
  exists rs, w', pre, post, text. split; [exact Hrun|]. split; [exact Htr|].
  split; [exact (Hpre Hpaths)|]. split; [exact Hpost|exact Hfile].
Defined.


Lemma get_dvsni_addrs_dedup_witness :
  vhosts Example.world_d !! domain Example.chall_d = Some Example.vh_d ∧
  size (addrs Example.vh_d) = 4 ∧
  ∃ s w',
    get_dvsni_addrs Example.cfg Example.chall_d Example.world_d = (Ok s, w') ∧
    dvsni_addr_of Example.cfg (mkAddr "10.0.0.7" "80")
    = dvsni_addr_of Example.cfg (mkAddr "10.0.0.7" "8080") ∧
    (∀ x, x ∈ s ↔ x = mkAddr "10.0.0.7" "5001" ∨ x = mkAddr "*" "5001") ∧
    size s = 2 ∧
    (size s < size (addrs Example.vh_d))%nat.
Proof.
  assert (mkAddr "10.0.0.7" "80" ∈ addrs Example.vh_d) as Ha
    by (vm_compute; reflexivity).
  assert (mkAddr "10.0.0.7" "8080" ∈ addrs Example.vh_d) as Hb
    by (vm_compute; reflexivity).
  assert (mkAddr "_default_" "443" ∈ addrs Example.vh_d) as Hc
    by (vm_compute; reflexivity).
  split; [reflexivity|]. split; [vm_compute; reflexivity|].
  destruct (get_dvsni_addrs_dedup Example.cfg Example.chall_d Example.world_d
              Example.vh_d eq_refl)
    as (s & w' & Hrun & _ & _ & Hsame & _ & _ & _ & Hmem & Hsize & Hless & _).
  exists s, w'. split; [exact Hrun|].
  split; [exact (proj1 (Hsame _ _ Ha Hb eq_refl))|].
  split; [|split].
  - intros x. rewrite Hmem. split.
    + intros (a & Hin & ->). unfold Example.vh_d in Hin. cbn [addrs] in Hin.
      rewrite !elem_of_union, !elem_of_singleton in Hin.
      destruct Hin as [[[->| ->]| ->]| ->]; cbn; auto.
    + intros [->| ->].
      * exists (mkAddr "10.0.0.7" "80"). split; [exact Ha|reflexivity].
      * exists (mkAddr "_default_" "443"). split; [exact Hc|reflexivity].
  - rewrite Hsize. vm_compute. reflexivity.
  - apply (Hless _ _ Ha Hb); [discriminate|reflexivity].
Defined.

(** * Further properties of the solver *)

Section Outcomes.

Variable linesep : string.
Variable cfg : Config.
Variable gen_response : string -> string -> Response.
Variable get_cert_path get_key_path : AChall -> string.
Variable gen_cert : AChall -> string * string.
Variable str_addr : Addr -> string.
Variable get_aug_path : string -> string.

Local Notation mod_config :=
  (_mod_config linesep cfg gen_response get_cert_path get_key_path str_addr
               get_aug_path).
Local Notation solve :=
  (perform linesep cfg gen_response get_cert_path get_key_path gen_cert
           str_addr get_aug_path).
Local Notation fragment :=
  (fragment_text linesep cfg gen_response get_cert_path get_key_path str_addr).
Local Notation conf := (challenge_conf cfg).
Local Notation cert_events :=
  (setup_events get_cert_path get_key_path gen_cert).

(** X2. The calls of a successful run, in order: the precautionary save,
    the switch to HTTPS at the challenge port, the certificate of every
    challenge in the order of the batch, the lookup of the virtual server
    of every challenge in the same order, the include check, the
    registration, opening and writing of the fragment, the switch of the
    addresses to SNI, and last the reversible save titled
    [SNI Challenge]. *)
Theorem perform_call_order (achalls : list AChall) (w : World) :
  achalls ≠ [] → all_resolved (vhosts w) achalls →
  ∃ rs w',
    solve achalls w = (Ok rs, w') ∧
    trace w'
    = (trace w
         ++ [EvSave None false; EvPrepareServerHttps (dvsni_port cfg) true]
         ++ concat (map cert_events achalls)
         ++ map (fun a => EvChooseVhost (domain a)) achalls
         ++ include_events cfg get_aug_path (loc_default cfg) (directives w)
         ++ [EvRegisterFileCreation true conf; EvOpenW conf;
             EvWrite conf (fragment (vhosts w) achalls)]
         ++ [EvMakeAddrsSniReady (⋃ map (achall_addrs cfg (vhosts w)) achalls);
             EvSave (Some "SNI Challenge") true])%list.
Proof.
  intros Hne Hres. eexists _, _. split; [by apply perform_ok|]. done.
Qed.


(** X5. Two runs in a row: the second run adds no include to the one the
    first run left, so that after both the configuration holds one
    include of the fragment if it had none before and as many as before
    otherwise; and the fragment file holds the fragment of the second
    batch only. *)
Theorem perform_twice (l1 l2 : list AChall) (w : World) :
  l1 ≠ [] → l2 ≠ [] →
  all_resolved (vhosts w) l1 → all_resolved (vhosts w) l2 →
  ∃ rs1 w1 rs2 w2,
    solve l1 w = (Ok rs1, w1) ∧
    solve l2 w1 = (Ok rs2, w2) ∧
    directives w2 = directives w1 ∧
    length (includes cfg (directives w2))
    = Nat.max 1 (length (includes cfg (directives w))) ∧
    files w2 !! conf = Some (fragment (vhosts w) l2).
Proof.
  intros Hne1 Hne2 Hres1 Hres2. eexists _, _, _, _.
  split; [by apply perform_ok|]. split; [by apply perform_ok|].
  cbn [vhosts directives files].
  destruct (includes cfg (directives w)) as [|d ds] eqn:Hinc.
  - rewrite includes_snoc, Hinc. cbn [app]. split_and!; [done| |].
    + by rewrite includes_snoc, Hinc.
    + apply lookup_insert_eq.
  - rewrite Hinc. split_and!; [done| |].
    + rewrite Hinc. cbn [length]. lia.
    + apply lookup_insert_eq.
Qed.

End Outcomes.

Section AddressSets.

Variable linesep : string.
Variable cfg : Config.
Variable gen_response : string -> string -> Response.
Variable get_cert_path get_key_path : AChall -> string.
Variable str_addr : Addr -> string.
Variable get_aug_path : string -> string.

Local Notation mod_config :=
  (_mod_config linesep cfg gen_response get_cert_path get_key_path str_addr
               get_aug_path).

Lemma dvsni_addr_of_not_default (a : Addr) :
  get_addr (dvsni_addr_of cfg a) ≠ "_default_".
Proof.
  unfold dvsni_addr_of.
  destruct (String.eqb_spec "_default_" (get_addr a)) as [_|Hne]; [done|].
  cbn [get_sni_addr get_addr]. congruence.
Qed.

(** X6. For a domain that has a virtual server, [get_dvsni_addrs] never
    fails and records only the lookup; the set it returns has at most as
    many elements as the virtual host has addresses, it is empty exactly
    when the virtual host has no address, and no element of it has the
    wildcard marker as its host. *)
Theorem get_dvsni_addrs_bounds (achall : AChall) (w : World) (vh : VirtualHost) :
  vhosts w !! domain achall = Some vh →
  ∃ s,
    get_dvsni_addrs cfg achall w = (Ok s, log [EvChooseVhost (domain achall)] w) ∧
    (size s ≤ size (addrs vh))%nat ∧
    (s = ∅ ↔ addrs vh = ∅) ∧
    (∀ x, x ∈ s → get_addr x ≠ "_default_").
Proof.
  intros Hvh. exists (vhost_dvsni_addrs cfg vh).
  rewrite get_dvsni_addrs_run, Hvh. split; [done|]. split_and!.
  - unfold vhost_dvsni_addrs, set_map.
    etrans; [apply size_list_to_set_length|].
    by rewrite length_fmap.
  - split.
    + intros Hs. apply set_eq. intros a. split; [|by intros ?%not_elem_of_empty].
      intros Ha. assert (dvsni_addr_of cfg a ∈ vhost_dvsni_addrs cfg vh) as Hin.
      { apply elem_of_vhost_dvsni_addrs. eauto. }
      rewrite Hs in Hin. by apply not_elem_of_empty in Hin.
    + intros Hs. unfold vhost_dvsni_addrs. by rewrite Hs, set_map_empty.
  - intros x (a & _ & ->)%elem_of_vhost_dvsni_addrs.
    apply dvsni_addr_of_not_default.
Qed.

(** X7. Every address in the set that [_mod_config] returns carries the
    challenge port, never has the wildcard marker as its host, and comes
    from a listening address of the virtual host of some challenge of the
    batch: it has the host of that address, or the host [*] when that
    address has the wildcard marker. *)
Theorem mod_config_addrs_shape (achalls : list AChall) (w w' : World)
    (s : gset Addr) :
  mod_config achalls w = (Ok s, w') →
  ∀ x, x ∈ s →
    get_port x = dvsni_port cfg ∧
    get_addr x ≠ "_default_" ∧
    ∃ a vh addr,
      a ∈ achalls ∧ vhosts w !! domain a = Some vh ∧ addr ∈ addrs vh ∧
      (get_addr x = get_addr addr ∨
       (get_addr addr = "_default_" ∧ get_addr x = "*")).
Proof.
  intros Hrun x Hx.
  destruct (decide (all_resolved (vhosts w) achalls)) as [Hres|Hres].
  - rewrite (mod_config_ok linesep cfg gen_response get_cert_path get_key_path
               str_addr get_aug_path achalls w Hres) in Hrun.
    injection Hrun as <- _.
    apply elem_of_union_achall_addrs in Hx as (a & vh & addr & Ha & Hvh & Haddr & ->).
    split; [apply dvsni_addr_of_port|]. split; [apply dvsni_addr_of_not_default|].
    exists a, vh, addr. split_and!; [done..|].
    unfold dvsni_addr_of.
    destruct (String.eqb_spec "_default_" (get_addr addr)) as [Heq|_].
    + right. by split.
    + by left.
  - destruct (mod_config_raise linesep cfg gen_response get_cert_path
                get_key_path str_addr get_aug_path achalls w Hres)
      as (pre & a & post & _ & _ & _ & Hraise).
    rewrite Hraise in Hrun. discriminate Hrun.
Qed.

End AddressSets.

(** ** The text of a block and its line endings *)

Lemma prefix_app_self (p t : string) : String.prefix p (p ++ t) = true.
Proof.
  induction p as [|x p IH]; [by destruct t|].
  rewrite sapp_cons. cbn [String.prefix]. by destruct (ascii_dec x x).
Qed.

Lemma has_char_format_plain (c : ascii) (t : list Piece) (kw : Field -> string) :
  Forall (fun p => has_char c (piece_text kw p) = false) t →
  has_char c (format t kw) = false.
Proof.
  induction 1 as [|p t Hp Ht IH]; [done|].
  destruct p as [s|f]; cbn [format piece_text] in *;
    by rewrite has_char_app, Hp, IH.
Qed.

Lemma scan_skip (sep u t : string) :
  scan_endings sep (String.length u) (u ++ t) = scan_endings sep 0 t.
Proof.
  induction u as [|x u IH]; [done|].
  rewrite sapp_cons. cbn [String.length scan_endings]. exact IH.
Qed.

Lemma scan_sep (sep t : string) :
  eol_head sep = true →
  scan_endings sep 0 (sep ++ t) = scan_endings sep 0 t.
Proof.
  destruct sep as [|c0 r0]; [done|]. intros _.
  rewrite sapp_cons. cbn [scan_endings].
  change (String c0 (r0 ++ t)) with (String c0 r0 ++ t).
  rewrite prefix_app_self. cbn [String.eqb negb andb String.length].
  replace (S (String.length r0) - 1) with (String.length r0) by lia.
  apply scan_skip.
Qed.

Lemma scan_plain (sep : string) (x : ascii) (r : string) :
  eol_head sep = true → is_eol x = false →
  scan_endings sep 0 (String x r) = scan_endings sep 0 r.
Proof.
  destruct sep as [|c0 r0]; [done|]. cbn [eol_head]. intros Hc0 Hx.
  cbn [scan_endings String.prefix].
  destruct (ascii_dec c0 x) as [->|_]; [congruence|].
  cbn [andb]. by rewrite Hx.
Qed.

Lemma scan_replace (sep s t : string) :
  eol_head sep = true → has_char CR s = false →
  scan_endings sep 0 (replace_nl sep s ++ t) = scan_endings sep 0 t.
Proof.
  intros Hsep. induction s as [|x s IH]; [done|].
  cbn [has_char replace_nl]. intros [Hx Hs]%orb_false_iff.
  rewrite sapp_assoc. destruct (Ascii.eqb x LF) eqn:HLF.
  - rewrite scan_sep by done. by apply IH.
  - rewrite sapp_cons, sapp_nil_l, scan_plain; [by apply IH|done|].
    unfold is_eol. rewrite HLF. cbn [orb]. by rewrite Ascii.eqb_sym.
Qed.

Section Rendering.

Variable linesep : string.
Variable cfg : Config.
Variable gen_response : string -> string -> Response.
Variable get_cert_path get_key_path : AChall -> string.
Variable str_addr : Addr -> string.

Local Notation config_text_of :=
  (_get_config_text linesep cfg gen_response get_cert_path get_key_path str_addr).
Local Notation lacks :=
  (block_lacks cfg gen_response get_cert_path get_key_path str_addr).

(** X9. The block of a challenge, line by line: every line of the
    template ends in [os.linesep], and the line feeds inside the values
    put into the template are replaced by [os.linesep] as well. *)
Theorem config_text_rendering (a : AChall) (ips : gset Addr) :
  config_text_of a ips
  = "<VirtualHost "
      ++ replace_nl linesep (join " " (map str_addr (elements ips))) ++ ">"
      ++ linesep
    ++ "    ServerName "
      ++ replace_nl linesep
           (z_domain (gen_response (token a) (account_key a)))
      ++ linesep
    ++ "    UseCanonicalName on" ++ linesep
    ++ "    SSLStrictSNIVHostCheck on" ++ linesep
    ++ linesep
    ++ "    LimitRequestBody 1048576" ++ linesep
    ++ linesep
    ++ "    Include " ++ replace_nl linesep (mod_ssl_conf cfg) ++ linesep
    ++ "    SSLCertificateFile " ++ replace_nl linesep (get_cert_path a)
      ++ linesep
    ++ "    SSLCertificateKeyFile " ++ replace_nl linesep (get_key_path a)
      ++ linesep
    ++ linesep
    ++ "    DocumentRoot "
      ++ replace_nl linesep (os_path_join (work_dir cfg) "dvsni_page/")
      ++ linesep
    ++ "</VirtualHost>" ++ linesep
    ++ linesep.
Proof.
  unfold _get_config_text. cbv [VHOST_TEMPLATE NL format].
  repeat rewrite replace_nl_app. repeat rewrite replace_nl_nl.
  rewrite (replace_nl_id linesep "<VirtualHost ") by done.
  rewrite (replace_nl_id linesep ">") by done.
  rewrite (replace_nl_id linesep "    ServerName ") by done.
  rewrite (replace_nl_id linesep "    UseCanonicalName on") by done.
  rewrite (replace_nl_id linesep "    SSLStrictSNIVHostCheck on") by done.
  rewrite (replace_nl_id linesep "    LimitRequestBody 1048576") by done.
  rewrite (replace_nl_id linesep "    Include ") by done.
  rewrite (replace_nl_id linesep "    SSLCertificateFile ") by done.
  rewrite (replace_nl_id linesep "    SSLCertificateKeyFile ") by done.
  rewrite (replace_nl_id linesep "    DocumentRoot ") by done.
  rewrite (replace_nl_id linesep "</VirtualHost>") by done.
  cbn [replace_nl]. by rewrite sapp_nil_r.
Qed.

(** X10. Where the line terminator begins with a carriage return or a
    line feed, and no value put into the template holds a carriage
    return, every line ending of the block that [_get_config_text]
    returns is the native one. *)
Theorem config_text_native (a : AChall) (ips : gset Addr) :
  eol_head linesep = true → lacks CR a ips = true →
  native_line_endings linesep (config_text_of a ips) = true.
Proof.
  intros Hsep. unfold block_lacks.
  rewrite !andb_true_iff, !negb_true_iff.
  intros (((((Haddr & Hz) & Hssl) & Hcert) & Hkey) & Hwd).
  unfold native_line_endings, _get_config_text.
  rewrite <- (sapp_nil_r (replace_nl _ _)).
  rewrite scan_replace; [done|done|].
  apply has_char_format_plain.
  set (kw := fun f : Field => match f with
                              | vhost => _ | server_name => _
                              | ssl_options_conf_path => _ | cert_path => _
                              | key_path => _ | document_root => _ end).
  assert (∀ f, has_char CR (kw f) = false) as Hkw.
  { intros []; cbn [kw]; try done.
    - apply has_char_join; [done|]. apply Forall_forall.
      intros x (y & -> & Hy)%list_elem_of_fmap.
      rewrite forallb_forall in Haddr. apply negb_true_iff, Haddr.
      by apply list_elem_of_In.
    - by apply has_char_os_path_join. }
  cbv [VHOST_TEMPLATE NL].
  repeat (apply Forall_cons; split; [first [exact (Hkw _) | reflexivity]|]).
  apply Forall_nil_2.
Qed.

End Rendering.

Lemma replace_nl_with_nl (s : string) : replace_nl nl s = s.
Proof.
  induction s as [|x s IH]; [done|].
  cbn [replace_nl]. rewrite IH.
  destruct (Ascii.eqb_spec x LF) as [->|_]; done.
Qed.

Section LineFeedPlatform.

Variable cfg : Config.
Variable gen_response : string -> string -> Response.
Variable get_cert_path get_key_path : AChall -> string.
Variable gen_cert : AChall -> string * string.
Variable str_addr : Addr -> string.
Variable get_aug_path : string -> string.

Local Notation config_text_of :=
  (_get_config_text nl cfg gen_response get_cert_path get_key_path str_addr).
Local Notation block :=
  (block_of nl cfg gen_response get_cert_path get_key_path str_addr).
Local Notation fragment :=
  (fragment_text nl cfg gen_response get_cert_path get_key_path str_addr).
Local Notation lacks :=
  (block_lacks cfg gen_response get_cert_path get_key_path str_addr).
Local Notation batch_lacks' :=
  (batch_lacks cfg gen_response get_cert_path get_key_path str_addr).

Lemma config_text_lacks_cr (a : AChall) (ips : gset Addr) :
  lacks CR a ips = true → has_char CR (config_text_of a ips) = false.
Proof.
  unfold block_lacks. rewrite !andb_true_iff, !negb_true_iff.
  intros (((((Haddr & Hz) & Hssl) & Hcert) & Hkey) & Hwd).
  unfold _get_config_text. rewrite replace_nl_with_nl.
  apply has_char_format_plain.
  set (kw := fun f : Field => match f with
                              | vhost => _ | server_name => _
                              | ssl_options_conf_path => _ | cert_path => _
                              | key_path => _ | document_root => _ end).
  assert (∀ f, has_char CR (kw f) = false) as Hkw.
  { intros []; cbn [kw]; try done.
    - apply has_char_join; [done|]. apply Forall_forall.
      intros x (y & -> & Hy)%list_elem_of_fmap.
      rewrite forallb_forall in Haddr. apply negb_true_iff, Haddr.
      by apply list_elem_of_In.
    - by apply has_char_os_path_join. }
  cbv [VHOST_TEMPLATE NL].
  repeat (apply Forall_cons; split; [first [exact (Hkw _) | reflexivity]|]).
  apply Forall_nil_2.
Qed.

Lemma fragment_lacks_cr (vs : gmap string VirtualHost) (l : list AChall) :
  batch_lacks' CR vs l = true → has_char CR (fragment vs l) = false.
Proof.
  intros Hl. unfold fragment_text. rewrite !has_char_app.
  assert (has_char CR (sconcat (map (block vs) l)) = false) as ->; [|done].
  unfold batch_lacks in Hl. induction l as [|a l IH]; [done|].
  cbn [forallb] in Hl. apply andb_true_iff in Hl as [Ha Hl].
  change (sconcat (map (block vs) (a :: l)))
    with (block vs a ++ sconcat (map (block vs) l)).
  rewrite has_char_app, (IH Hl). unfold block_of.
  by rewrite config_text_lacks_cr.
Qed.

(** X11. Where the line terminator is the line feed, and no value put
    into the blocks holds a carriage return, a successful run writes a
    fragment whose line endings are all native, guard lines included. *)
Theorem fragment_native_lf (achalls : list AChall) (w : World) :
  achalls ≠ [] → all_resolved (vhosts w) achalls →
  batch_lacks' CR (vhosts w) achalls = true →
  ∃ rs w' text,
    perform nl cfg gen_response get_cert_path get_key_path gen_cert
            str_addr get_aug_path achalls w = (Ok rs, w') ∧
    files w' !! challenge_conf cfg = Some text ∧
    native_line_endings nl text = true.
Proof.
  intros Hne Hres Hcr. eexists _, _, _.
  split; [by apply perform_ok|]. cbn [files].
  split; [apply lookup_insert_eq|].
  unfold native_line_endings.
  rewrite <- (replace_nl_with_nl (fragment _ _)), <- (sapp_nil_r (replace_nl _ _)).
  rewrite scan_replace; [done|done|]. by apply fragment_lacks_cr.
Qed.

End LineFeedPlatform.

(** ** The further properties at work *)

Lemma perform_call_order_witness :
  [Example.chall_empty] ≠ [] ∧
  all_resolved (vhosts Example.world) [Example.chall_empty] ∧
  ∃ rs w',
    Example.solve nl [Example.chall_empty] Example.world = (Ok rs, w') ∧
    trace w' !! 0 = Some (EvSave None false) ∧
    trace w' !! 1 = Some (EvPrepareServerHttps "5001" true) ∧
    trace w' !! 8 = Some (EvChooseVhost "empty.example") ∧
    trace w' !! 15 = Some (EvSave (Some "SNI Challenge") true).
Proof.
  assert (all_resolved (vhosts Example.world) [Example.chall_empty]) as Hres.
  { repeat constructor. by eexists. }
  split; [discriminate|]. split; [exact Hres|].
  destruct (perform_call_order nl Example.cfg Example.gen_response
              Example.get_cert_path Example.get_key_path Example.gen_cert
              Example.str_addr Example.get_aug_path
              [Example.chall_empty] Example.world ltac:(discriminate) Hres)
    as (rs & w' & Hrun & Htr).
  exists rs, w'. split; [exact Hrun|]. rewrite Htr.
  split; [reflexivity|]. split; [reflexivity|]. split; reflexivity.
Defined.


Lemma perform_twice_witness :
  [Example.chall_a] ≠ [] ∧ [Example.chall_b] ≠ [] ∧
  all_resolved (vhosts Example.world) [Example.chall_a] ∧
  all_resolved (vhosts Example.world) [Example.chall_b] ∧
  ∃ rs1 w1 rs2 w2,
    Example.solve nl [Example.chall_a] Example.world = (Ok rs1, w1) ∧
    Example.solve nl [Example.chall_b] w1 = (Ok rs2, w2) ∧
    directives w2 = directives w1 ∧
    length (includes Example.cfg (directives w2)) = 1.
Proof.
  assert (all_resolved (vhosts Example.world) [Example.chall_a]) as Ha.
  { repeat constructor. by eexists. }
  assert (all_resolved (vhosts Example.world) [Example.chall_b]) as Hb.
  { repeat constructor. by eexists. }
  split; [discriminate|]. split; [discriminate|].
  split; [exact Ha|]. split; [exact Hb|].
  destruct (perform_twice nl Example.cfg Example.gen_response
              Example.get_cert_path Example.get_key_path Example.gen_cert
              Example.str_addr Example.get_aug_path
              [Example.chall_a] [Example.chall_b] Example.world
              ltac:(discriminate) ltac:(discriminate) Ha Hb)
    as (rs1 & w1 & rs2 & w2 & H1 & H2 & Hd & Hlen & _).
  exists rs1, w1, rs2, w2. split; [exact H1|]. split; [exact H2|].
  split; [exact Hd|]. rewrite Hlen. reflexivity.
Defined.

Lemma get_dvsni_addrs_bounds_witness :
  vhosts Example.world !! domain Example.chall_a = Some Example.vh_a ∧
  ∃ s,
    get_dvsni_addrs Example.cfg Example.chall_a Example.world
    = (Ok s, log [EvChooseVhost "a.example"] Example.world) ∧
    (size s ≤ size (addrs Example.vh_a))%nat.
Proof.
  split; [reflexivity|].
  destruct (get_dvsni_addrs_bounds Example.cfg Example.chall_a Example.world
              Example.vh_a eq_refl) as (s & Hrun & Hsize & _).
  exists s. split; [exact Hrun|exact Hsize].
Defined.

Lemma mod_config_addrs_shape_witness :
  ∃ s w',
    _mod_config nl Example.cfg Example.gen_response Example.get_cert_path
      Example.get_key_path Example.str_addr Example.get_aug_path
      [Example.chall_a] Example.world = (Ok s, w') ∧
    mkAddr "*" "5001" ∈ s ∧
    get_port (mkAddr "*" "5001") = dvsni_port Example.cfg.
Proof.
  assert (all_resolved (vhosts Example.world) [Example.chall_a]) as Hres.
  { repeat constructor. by eexists. }
  pose proof (mod_config_ok nl Example.cfg Example.gen_response
                Example.get_cert_path Example.get_key_path Example.str_addr
                Example.get_aug_path [Example.chall_a] Example.world Hres) as Hrun.
  eexists _, _. split; [exact Hrun|].
  assert (mkAddr "*" "5001"
          ∈ ⋃ map (achall_addrs Example.cfg (vhosts Example.world))
                  [Example.chall_a]) as Hin by (vm_compute; reflexivity).
  split; [exact Hin|].
  exact (proj1 (mod_config_addrs_shape nl Example.cfg Example.gen_response
                  Example.get_cert_path Example.get_key_path Example.str_addr
                  Example.get_aug_path [Example.chall_a] Example.world _ _
                  Hrun (mkAddr "*" "5001") Hin)).
Defined.

Lemma config_text_native_witness :
  eol_head crlf = true ∧
  block_lacks Example.cfg Example.gen_response Example.get_cert_path
    Example.get_key_path Example.str_addr CR Example.chall_a
    (achall_addrs Example.cfg (vhosts Example.world) Example.chall_a) = true ∧
  native_line_endings crlf
    (_get_config_text crlf Example.cfg Example.gen_response Example.get_cert_path
       Example.get_key_path Example.str_addr Example.chall_a
       (achall_addrs Example.cfg (vhosts Example.world) Example.chall_a)) = true.
Proof.
  assert (block_lacks Example.cfg Example.gen_response Example.get_cert_path
            Example.get_key_path Example.str_addr CR Example.chall_a
            (achall_addrs Example.cfg (vhosts Example.world) Example.chall_a)
          = true) as Hcr by (vm_compute; reflexivity).
  split; [reflexivity|]. split; [exact Hcr|].
  exact (config_text_native crlf Example.cfg Example.gen_response
           Example.get_cert_path Example.get_key_path Example.str_addr
           Example.chall_a _ eq_refl Hcr).
Defined.

Lemma fragment_native_lf_witness :
  [Example.chall_a; Example.chall_b] ≠ [] ∧
  all_resolved (vhosts Example.world) [Example.chall_a; Example.chall_b] ∧
  batch_lacks Example.cfg Example.gen_response Example.get_cert_path
    Example.get_key_path Example.str_addr CR (vhosts Example.world)
    [Example.chall_a; Example.chall_b] = true ∧
  ∃ rs w' text,
    Example.solve nl [Example.chall_a; Example.chall_b] Example.world = (Ok rs, w') ∧
    files w' !! challenge_conf Example.cfg = Some text ∧
    native_line_endings nl text = true.
Proof.
  assert (all_resolved (vhosts Example.world) [Example.chall_a; Example.chall_b])
    as Hres.
  { repeat constructor; by eexists. }
  assert (batch_lacks Example.cfg Example.gen_response Example.get_cert_path
            Example.get_key_path Example.str_addr CR (vhosts Example.world)
            [Example.chall_a; Example.chall_b] = true) as Hcr
    by (vm_compute; reflexivity).
  split; [discriminate|]. split; [exact Hres|]. split; [exact Hcr|].
  exact (fragment_native_lf Example.cfg Example.gen_response
           Example.get_cert_path Example.get_key_path Example.gen_cert
           Example.str_addr Example.get_aug_path
           [Example.chall_a; Example.chall_b] Example.world
           ltac:(discriminate) Hres Hcr).
Defined.
